(** * Shallow embedding of the EVM runtime crate ([runtime/src/lib.rs] and
    [runtime/src/eval/system.rs]).

    Words ([U256], [H256]) are integers [Z] in [0, 2^256); an [H256] is read as
    its big-endian value, so [H256 <-> U256] conversions are the identity.
    An [H160] address is a [Z] in [0, 2^160).  Byte strings ([Vec<u8>]) are
    [list Z] of values in [0, 256).  [usize] is 64 bits wide. *)

From Stdlib Require Import ZArith List Bool Lia.
Import ListNotations.
Open Scope Z_scope.

(** ** Basic Rust types *)

Inductive result (A E : Type) : Type :=
| Ok (a : A)
| Err (e : E).
Arguments Ok {A E} a.
Arguments Err {A E} e.

Inductive Capture (E T : Type) : Type :=
| Exit (e : E)
| Trap (t : T).
Arguments Exit {E T} e.
Arguments Trap {E T} t.

Definition usize_max : Z := 2 ^ 64 - 1.

(** [H160::from(H256)]: bytes [12..32] of the big-endian word, i.e. its low
    160 bits. *)
Definition h160_of_h256 (x : Z) : Z := Z.land x (Z.ones 160).

(** [H256::as_bytes] / [H160::as_bytes]: [n] big-endian bytes. *)
Definition be_bytes (n : nat) (z : Z) : list Z :=
  map (fun i => Z.land (Z.shiftr z (8 * Z.of_nat (n - 1 - i))) 255) (seq 0 n).

(** ** Exit reasons (evm_core).

    Modelled from the spec: the exit-reason taxonomy of evm_core (section 7),
    with [ExitReason = Result<ExitSucceed, ExitError>] as the runtime uses it
    ([Ok(ExitSucceed::Suicided)], [Err(e)]). *)
Inductive ExitSucceed :=
| Stopped
| Returned
| Suicided
| Reverted.

Inductive ExitError :=
| StackUnderflow
| StackOverflow
| InvalidJump
| InvalidRange
| DesignatedInvalid
| CallTooDeep
| CreateCollision
| OutOfOffset
| OutOfGas
| OutOfFund
| StaticCallViolation
| NotSupported
| Other (code : nat).

Definition ExitReason := result ExitSucceed ExitError.

(** ** Context, schemes, transfers, config *)

Record Context := mkContext {
  address : Z;
  caller : Z;
  apparent_value : Z;
}.

Inductive CreateScheme :=
| Dynamic
| Fixed (a : Z).

Inductive CallScheme :=
| Call
| CallCode
| DelegateCall
| StaticCall.

Definition CallScheme_eqb (a b : CallScheme) : bool :=
  match a, b with
  | Call, Call | CallCode, CallCode
  | DelegateCall, DelegateCall | StaticCall, StaticCall => true
  | _, _ => false
  end.

Record Transfer := mkTransfer {
  source : Z;
  target : Z;
  value : Z;
}.

Record Config := mkConfig {
  gas_ext_code : Z;
  gas_ext_code_hash : Z;
  gas_sstore_set : Z;
  gas_sstore_reset : Z;
  refund_sstore_clears : Z;
  gas_balance : Z;
  gas_sload : Z;
  gas_suicide : Z;
  gas_suicide_new_account : Z;
  gas_call : Z;
  gas_expbyte : Z;
  gas_transaction_create : Z;
  gas_transaction_call : Z;
  gas_transaction_zero_data : Z;
  gas_transaction_non_zero_data : Z;
  has_reduced_sstore_gas_metering : bool;
  err_on_call_with_more_gas : bool;
  call_l64_after_gas : bool;
  empty_considered_exists : bool;
  create_increase_nonce : bool;
  stack_limit : Z;
  memory_limit : Z;
  call_limit : Z;
  call_stipend : Z;
}.

Definition frontier : Config :=
  mkConfig 20 20 20000 5000 15000 20 50 0 0 40 10 21000 21000 4 68
           false true false true false 1024 usize_max 1024 2300.

Definition istanbul : Config :=
  mkConfig 700 700 20000 5000 15000 700 800 5000 25000 700 50 53000 21000 4 16
           true false true false true 1024 usize_max 1024 2300.

(** ** Memory (evm_core).

    Modelled from the spec: evm_core's [Memory] (sections 3 and 4.2): a byte
    array bounded by [memory_limit], implicitly expanded with zeros; reads
    beyond its length give zeros; [copy_large] writes the overlapping part of
    the source and zero-fills the tail; a size beyond [usize] or the limit is
    a fatal error. *)
Record Memory := mkMemory {
  mem_data : list Z;
  mem_limit : Z;
}.

Definition mem_get (m : Memory) (offset size : Z) : list Z :=
  map (fun i => nth (Z.to_nat offset + i) m.(mem_data) 0) (seq 0 (Z.to_nat size)).

Definition resize (l : list Z) (n : nat) : list Z :=
  if (length l <? n)%nat then l ++ repeat 0 (n - length l) else l.

Definition mem_set (m : Memory) (offset : Z) (v : list Z) (target_size : option Z)
  : result Memory ExitError :=
  let ts := match target_size with Some t => t | None => Z.of_nat (length v) end in
  if (usize_max <? offset + ts) || (m.(mem_limit) <? offset + ts) then Err NotSupported
  else
    let d := resize m.(mem_data) (Z.to_nat (offset + ts)) in
    let written := firstn (Z.to_nat ts) (v ++ repeat 0 (Z.to_nat ts)) in
    Ok (mkMemory (firstn (Z.to_nat offset) d ++ written ++ skipn (Z.to_nat (offset + ts)) d)
                 m.(mem_limit)).

Definition copy_large (m : Memory) (memory_offset data_offset len : Z) (data : list Z)
  : result Memory ExitError :=
  if (usize_max <? memory_offset) || (usize_max <? len) then Err NotSupported
  else
    let src :=
      if usize_max <? data_offset + len then []
      else if Z.of_nat (length data) <? data_offset then []
      else firstn (Z.to_nat (Z.min (data_offset + len) (Z.of_nat (length data)) - data_offset))
                  (skipn (Z.to_nat data_offset) data) in
    mem_set m memory_offset src (Some len).

(** ** The inner machine (evm_core).

    Modelled from the spec: evm_core's [Machine] (sections 3 and 4.1), the
    inner collaborator that owns the program counter, the stack and the
    memory.  [position] is [Ok pc] while running and [Err reason] once the
    machine has exited; [inspect] yields the current opcode only while
    running; [exit] moves the machine into an exited state with the given
    reason; [step] runs one pure opcode through [core_eval] below and records
    an exit reason in [position] when the opcode exits. *)
Record Machine := mkMachine {
  code : list Z;
  data : list Z;
  position : result nat ExitReason;
  stack : list Z;
  stack_cap : Z;
  memory : Memory;
}.

Definition set_stack (m : Machine) (s : list Z) : Machine :=
  mkMachine m.(code) m.(data) m.(position) s m.(stack_cap) m.(memory).
Definition set_memory (m : Machine) (mem : Memory) : Machine :=
  mkMachine m.(code) m.(data) m.(position) m.(stack) m.(stack_cap) mem.
Definition set_position (m : Machine) (p : result nat ExitReason) : Machine :=
  mkMachine m.(code) m.(data) p m.(stack) m.(stack_cap) m.(memory).

Definition machine_new (code data : list Z) (stack_limit memory_limit : Z) : Machine :=
  mkMachine code data (Ok 0%nat) [] stack_limit (mkMemory [] memory_limit).

Definition inspect (m : Machine) : option (Z * list Z) :=
  match m.(position) with
  | Err _ => None
  | Ok pc => match nth_error m.(code) pc with
             | Some op => Some (op, m.(stack))
             | None => None
             end
  end.

Definition machine_exit (m : Machine) (r : ExitReason) : Machine :=
  set_position m (Err r).

Module ExternalOpcode.
(** The opcodes the inner machine traps on and hands to [eval::eval]. *)
Inductive t :=
| Sha3
| Address
| Balance
| SelfBalance
| Caller
| CallValue
| ReturnDataSize
| ReturnDataCopy
| SLoad
| SStore
| Log (n : nat)
| Suicide
| Create
| Create2
| Call
| CallCode
| DelegateCall
| StaticCall.
End ExternalOpcode.

(** Outcome of one pure opcode of the inner machine. *)
Inductive CoreControl :=
| CoreContinue (n : nat)
| CoreExit (r : ExitReason)
| CoreJump (pc : nat)
| CoreTrap (op : ExternalOpcode.t).

Section MachineStep.
(** The semantics of the pure opcodes (arithmetic, stack, memory, jumps) is
    out of scope: it reads the machine and gives the new stack and memory and
    a [CoreControl]. *)
Variable core_eval : Machine -> Z -> nat -> list Z * Memory * CoreControl.

Definition machine_step (m : Machine)
  : Machine * result unit (Capture ExitReason ExternalOpcode.t) :=
  match m.(position) with
  | Err r => (m, Err (Exit r))
  | Ok pc =>
      match nth_error m.(code) pc with
      | None => (set_position m (Err (Ok Stopped)), Err (Exit (Ok Stopped)))
      | Some op =>
          let '(s, mem, c) := core_eval m op pc in
          let m1 := set_memory (set_stack m s) mem in
          match c with
          | CoreContinue n => (set_position m1 (Ok (pc + n)%nat), Ok tt)
          | CoreExit r => (set_position m1 (Err r), Err (Exit r))
          | CoreJump p => (set_position m1 (Ok p), Ok tt)
          | CoreTrap o => (set_position m1 (Ok (S pc)), Err (Trap o))
          end
      end
  end.
End MachineStep.

(** ** The runtime frame ([struct Runtime]) *)
Record Runtime := mkRuntime {
  machine : Machine;
  status : result unit ExitReason;
  return_data_buffer : list Z;
  context : Context;
  config : Config;
}.

Definition set_machine (r : Runtime) (m : Machine) : Runtime :=
  mkRuntime m r.(status) r.(return_data_buffer) r.(context) r.(config).
Definition set_status (r : Runtime) (s : result unit ExitReason) : Runtime :=
  mkRuntime r.(machine) s r.(return_data_buffer) r.(context) r.(config).
Definition set_return_data_buffer (r : Runtime) (b : list Z) : Runtime :=
  mkRuntime r.(machine) r.(status) b r.(context) r.(config).

(** [Runtime::new] *)
Definition runtime_new (code data : list Z) (ctx : Context) (cfg : Config) : Runtime :=
  mkRuntime (machine_new code data cfg.(stack_limit) cfg.(memory_limit)) (Ok tt) [] ctx cfg.

(** ** The host ([trait Handler]).

    Every method takes the host state and, when it takes [&mut self], gives
    the new host state with its result. *)
Module Host.
Class Handler (H : Type) := {
  CreateInterrupt : Type;
  CallInterrupt : Type;
  balance : H -> Z -> Z;
  storage : H -> Z -> Z -> Z;
  set_storage : H -> Z -> Z -> Z -> H * result unit ExitError;
  log : H -> Z -> list Z -> list Z -> H * result unit ExitError;
  transfer : H -> Transfer -> H * result unit ExitError;
  mark_delete : H -> Z -> H * result unit ExitError;
  create_address : H -> Z -> CreateScheme -> H * result Z ExitError;
  create : H -> Z -> option Transfer -> list Z -> option Z -> Context ->
           H * result (Capture ExitReason CreateInterrupt) ExitError;
  call : H -> Z -> option Transfer -> list Z -> option Z -> bool -> Context ->
         H * result (Capture (ExitReason * list Z) CallInterrupt) ExitError;
  is_recoverable : H -> bool;
  pre_validate : H -> Context -> Z -> list Z -> H * result unit ExitError;
}.
End Host.

(** Ghost record of the [&mut self] host methods invoked, with their
    arguments, in order. *)
Inductive HostCall :=
| HPreValidate (ctx : Context) (opcode : Z) (stk : list Z)
| HSetStorage (a index v : Z)
| HLog (a : Z) (topics : list Z) (d : list Z)
| HTransfer (t : Transfer)
| HMarkDelete (a : Z)
| HCreateAddress (caller : Z) (scheme : CreateScheme)
| HCreate (a : Z) (t : option Transfer) (init_code : list Z) (gas : option Z) (ctx : Context)
| HCall (to : Z) (t : option Transfer) (input : list Z) (gas : option Z)
        (is_static : bool) (ctx : Context).

(** [eval::Control] *)
Inductive Control (CallI CreateI : Type) :=
| Continue
| CExit (r : ExitReason)
| CCallInterrupt (i : CallI)
| CCreateInterrupt (i : CreateI).
Arguments Continue {CallI CreateI}.
Arguments CExit {CallI CreateI} r.
Arguments CCallInterrupt {CallI CreateI} i.
Arguments CCreateInterrupt {CallI CreateI} i.

(** [interrupt::Resolve]: the interrupt with its resolve handle; the handle
    is the suspended runtime itself, returned alongside. *)
Inductive Resolve (CallI CreateI : Type) :=
| RCall (i : CallI)
| RCreate (i : CreateI).
Arguments RCall {CallI CreateI} i.
Arguments RCreate {CallI CreateI} i.

(** ** Frame state and the early-return monad of the opcode routines

    The routines of [eval/system.rs] take [&mut Runtime] and [&mut H] and
    leave early through the [pop!], [push!] and [as_usize_or_fail!] macros.
    [Op A] threads the runtime and the host and either goes on with an [A]
    or returns early with a [Control]. *)
Section Frame.
Context {H : Type} `{HD : Host.Handler H}.

Notation Ctl := (Control Host.CallInterrupt Host.CreateInterrupt).

Record World := mkWorld {
  hstate : H;
  trace : list HostCall;
}.

Record State := mkState {
  rt : Runtime;
  world : World;
}.

Definition Op (A : Type) := State -> State * (A + Ctl).

Definition ret {A} (a : A) : Op A := fun s => (s, inl a).
Definition bind {A B} (m : Op A) (k : A -> Op B) : Op B :=
  fun s => match m s with
           | (s', inl a) => k a s'
           | (s', inr c) => (s', inr c)
           end.
Definition early {A} (c : Ctl) : Op A := fun s => (s, inr c).

(** A routine ends with a [Control], either returned or left early. *)
Definition run_op (m : Op Ctl) (s : State) : State * Ctl :=
  match m s with
  | (s', inl c) | (s', inr c) => (s', c)
  end.

Definition get_rt : Op Runtime := fun s => (s, inl s.(rt)).
Definition get_host : Op H := fun s => (s, inl s.(world).(hstate)).

Definition upd_machine (f : Machine -> Machine) (s : State) : State :=
  mkState (set_machine s.(rt) (f s.(rt).(machine))) s.(world).

(** [pop!] / [pop_u256!]: one stack pop, leaving with [StackUnderflow].
    Modelled from the spec: the macros of [eval/macros.rs] are not
    available; following section 9 (operand decoding as a value or an early
    exit) and section 3 (stack underflow and overflow are fatal), [pop!]
    leaves with [StackUnderflow], [push!] with [StackOverflow], and
    [as_usize_or_fail!] with [NotSupported] on a word above [usize::MAX]. *)
Definition pop : Op Z := fun s =>
  match s.(rt).(machine).(stack) with
  | [] => (s, inr (CExit (Err StackUnderflow)))
  | v :: st => (upd_machine (fun m => set_stack m st) s, inl v)
  end.

(** [push!] / [push_u256!]: one stack push, leaving with [StackOverflow]
    when the stack is full. *)
Definition push (v : Z) : Op unit := fun s =>
  let m := s.(rt).(machine) in
  if m.(stack_cap) <? Z.of_nat (length m.(stack)) + 1
  then (s, inr (CExit (Err StackOverflow)))
  else (upd_machine (fun m => set_stack m (v :: m.(stack))) s, inl tt).

(** [as_usize_or_fail!]: a word that does not fit a [usize] is fatal. *)
Definition as_usize (v : Z) : Op Z := fun s =>
  if usize_max <? v then (s, inr (CExit (Err NotSupported))) else (s, inl v).

Definition memory_set (offset : Z) (v : list Z) (target_size : option Z)
  : Op (result unit ExitError) := fun s =>
  match mem_set s.(rt).(machine).(memory) offset v target_size with
  | Ok mem => (upd_machine (fun m => set_memory m mem) s, inl (Ok tt))
  | Err e => (s, inl (Err e))
  end.

Definition memory_copy_large (memory_offset data_offset len : Z) (d : list Z)
  : Op (result unit ExitError) := fun s =>
  match copy_large s.(rt).(machine).(memory) memory_offset data_offset len d with
  | Ok mem => (upd_machine (fun m => set_memory m mem) s, inl (Ok tt))
  | Err e => (s, inl (Err e))
  end.

Definition put_return_data_buffer (b : list Z) : Op unit := fun s =>
  (mkState (set_return_data_buffer s.(rt) b) s.(world), inl tt).

(** A [&mut self] host method: run it on the host state, record the call. *)
Definition host {A} (ev : HostCall) (f : H -> H * A) : Op A := fun s =>
  let '(h', a) := f s.(world).(hstate) in
  (mkState s.(rt) (mkWorld h' (s.(world).(trace) ++ [ev])), inl a).

End Frame.

Notation "x <- m ;; k" := (bind m (fun x => k))
  (at level 61, m at next level, right associativity).
Notation "m ;;; k" := (bind m (fun _ => k))
  (at level 61, right associativity).

(** [Keccak256] hasher of the [sha3] crate: [input] feeds bytes, [result]
    is the digest of everything fed, read as a big-endian word. *)
Definition Hasher := list Z.
Definition hasher_new : Hasher := [].
Definition hasher_input (h : Hasher) (bs : list Z) : Hasher := h ++ bs.

(** ** [eval/system.rs] *)
Module System.
Section System.
Context {H : Type} `{HD : Host.Handler H}.
(** [Keccak256::digest], read with [H256::from_slice]. *)
Variable keccak256 : list Z -> Z.

Notation Ctl := (Control Host.CallInterrupt Host.CreateInterrupt).

Definition hasher_result (h : Hasher) : Z := keccak256 h.

Definition sha3 : Op Ctl :=
  from <- pop ;; len <- pop ;;
  from <- as_usize from ;; len <- as_usize len ;;
  r <- get_rt ;;
  let d := mem_get r.(machine).(memory) from len in
  push (keccak256 d) ;;;
  ret Continue.

Definition returndatasize : Op Ctl :=
  r <- get_rt ;;
  push (Z.of_nat (length r.(return_data_buffer))) ;;;
  ret Continue.

Definition returndatacopy : Op Ctl :=
  memory_offset <- pop ;; data_offset <- pop ;; len <- pop ;;
  r <- get_rt ;;
  res <- memory_copy_large memory_offset data_offset len r.(return_data_buffer) ;;
  match res with
  | Ok _ => ret Continue
  | Err e => ret (CExit (Err e))
  end.

Definition sload : Op Ctl :=
  index <- pop ;;
  r <- get_rt ;; h <- get_host ;;
  push (Host.storage h r.(context).(address) index) ;;;
  ret Continue.

Definition sstore : Op Ctl :=
  index <- pop ;; v <- pop ;;
  r <- get_rt ;;
  let a := r.(context).(address) in
  res <- host (HSetStorage a index v) (fun h => Host.set_storage h a index v) ;;
  match res with
  | Ok _ => ret Continue
  | Err e => ret (CExit (Err e))
  end.

(** The [for _ in 0..n] loop popping the topics. *)
Fixpoint pop_topics (n : nat) : Op (list Z) :=
  match n with
  | O => ret []
  | S k => t <- pop ;; ts <- pop_topics k ;; ret (t :: ts)
  end.

Definition log (n : nat) : Op Ctl :=
  offset <- pop ;; len <- pop ;;
  offset <- as_usize offset ;; len <- as_usize len ;;
  r <- get_rt ;;
  let d := mem_get r.(machine).(memory) offset len in
  topics <- pop_topics n ;;
  let a := r.(context).(address) in
  res <- host (HLog a topics d) (fun h => Host.log h a topics d) ;;
  match res with
  | Ok _ => ret Continue
  | Err e => ret (CExit (Err e))
  end.

Definition suicide : Op Ctl :=
  tgt <- pop ;;
  r <- get_rt ;; h <- get_host ;;
  let a := r.(context).(address) in
  let bal := Host.balance h a in
  let t := mkTransfer a (h160_of_h256 tgt) bal in
  res <- host (HTransfer t) (fun h => Host.transfer h t) ;;
  match res with
  | Err e => ret (CExit (Err e))
  | Ok _ =>
      res <- host (HMarkDelete a) (fun h => Host.mark_delete h a) ;;
      match res with
      | Err e => ret (CExit (Err e))
      | Ok _ => ret (CExit (Ok Suicided))
      end
  end.

(** Zero pushed, then [is_recoverable] decides: the error arms of [create]
    and [call]. *)
Definition recover (e : ExitError) : Op Ctl :=
  push 0 ;;;
  h <- get_host ;;
  ret (if Host.is_recoverable h then Continue else CExit (Err e)).

Definition create (is_create2 : bool) : Op Ctl :=
  v <- pop ;; code_offset <- pop ;; len <- pop ;;
  code_offset <- as_usize code_offset ;; len <- as_usize len ;;
  r <- get_rt ;;
  let init_code := mem_get r.(machine).(memory) code_offset len in
  let self := r.(context).(address) in
  scheme <- (if is_create2 then
               salt <- pop ;;
               let code_hash := keccak256 init_code in
               let hasher := hasher_input hasher_new [255] in
               let hasher := hasher_input hasher (be_bytes 20 self) in
               let hasher := hasher_input hasher (be_bytes 32 salt) in
               let hasher := hasher_input hasher (be_bytes 32 code_hash) in
               let tgt := hasher_result hasher in
               ret (Fixed (h160_of_h256 tgt))
             else ret Dynamic) ;;
  res <- host (HCreateAddress self scheme) (fun h => Host.create_address h self scheme) ;;
  match res with
  | Err e => recover e
  | Ok create_address =>
      let ctx := mkContext create_address self v in
      let t := Some (mkTransfer self create_address v) in
      res <- host (HCreate create_address t init_code None ctx)
                  (fun h => Host.create h create_address t init_code None ctx) ;;
      match res with
      | Ok (Exit _) => push create_address ;;; ret Continue
      | Ok (Trap i) => push 0 ;;; ret (CCreateInterrupt i)
      | Err e => recover e
      end
  end.

(** [gas += runtime.config.call_stipend] on [usize]: wrap-around modulo
    [2^64] (overflow checks off, as in a release build). *)
Definition add_stipend (gas stipend : Z) : Z := (gas + stipend) mod 2 ^ 64.

Definition call (scheme : CallScheme) : Op Ctl :=
  gas <- pop ;; to <- pop ;;
  gas <- as_usize gas ;;
  v <- (match scheme with
        | Call | CallCode => pop
        | DelegateCall | StaticCall => ret 0
        end) ;;
  r <- get_rt ;;
  let gas := if v =? 0 then gas else add_stipend gas r.(config).(call_stipend) in
  in_offset <- pop ;; in_len <- pop ;; out_offset <- pop ;; out_len <- pop ;;
  in_offset <- as_usize in_offset ;; in_len <- as_usize in_len ;;
  out_offset <- as_usize out_offset ;; out_len <- as_usize out_len ;;
  r <- get_rt ;;
  let input := mem_get r.(machine).(memory) in_offset in_len in
  let self := r.(context) in
  let ctx := match scheme with
             | Call | StaticCall => mkContext (h160_of_h256 to) self.(address) v
             | CallCode => mkContext self.(address) self.(address) v
             | DelegateCall => mkContext self.(address) self.(caller) self.(apparent_value)
             end in
  let t := if CallScheme_eqb scheme Call
           then Some (mkTransfer self.(address) (h160_of_h256 to) v)
           else if CallScheme_eqb scheme CallCode
           then Some (mkTransfer self.(address) self.(address) v)
           else None in
  let is_static := CallScheme_eqb scheme StaticCall in
  res <- host (HCall (h160_of_h256 to) t input (Some gas) is_static ctx)
              (fun h => Host.call h (h160_of_h256 to) t input (Some gas) is_static ctx) ;;
  match res with
  | Ok (Exit (_, return_data)) =>
      put_return_data_buffer return_data ;;;
      r <- get_rt ;;
      mres <- memory_set out_offset r.(return_data_buffer) (Some out_len) ;;
      match mres with
      | Ok _ => push 1 ;;; ret Continue
      | Err e => recover e
      end
  | Ok (Trap i) => push 0 ;;; ret (CCallInterrupt i)
  | Err e => recover e
  end.

(** The routines named like [Context]'s fields come last, so that the
    field projections stay visible above. *)
Definition balance : Op Ctl :=
  a <- pop ;;
  h <- get_host ;;
  push (Host.balance h (h160_of_h256 a)) ;;;
  ret Continue.

Definition selfbalance : Op Ctl :=
  r <- get_rt ;; h <- get_host ;;
  push (Host.balance h r.(context).(address)) ;;;
  ret Continue.

Definition caller : Op Ctl :=
  r <- get_rt ;;
  push r.(context).(caller) ;;;
  ret Continue.

Definition callvalue : Op Ctl :=
  r <- get_rt ;;
  push r.(context).(apparent_value) ;;;
  ret Continue.

Definition address : Op Ctl :=
  r <- get_rt ;;
  push r.(context).(address) ;;;
  ret Continue.

(** [eval::eval]: dispatch of a trapped opcode.
    Modelled from the spec: [eval/mod.rs] is not available; the dispatch
    follows the opcode table of section 4.2. *)
Definition eval (op : ExternalOpcode.t) : Op Ctl :=
  match op with
  | ExternalOpcode.Sha3 => sha3
  | ExternalOpcode.Address => address
  | ExternalOpcode.Balance => balance
  | ExternalOpcode.SelfBalance => selfbalance
  | ExternalOpcode.Caller => caller
  | ExternalOpcode.CallValue => callvalue
  | ExternalOpcode.ReturnDataSize => returndatasize
  | ExternalOpcode.ReturnDataCopy => returndatacopy
  | ExternalOpcode.SLoad => sload
  | ExternalOpcode.SStore => sstore
  | ExternalOpcode.Log n => log n
  | ExternalOpcode.Suicide => suicide
  | ExternalOpcode.Create => create false
  | ExternalOpcode.Create2 => create true
  | ExternalOpcode.Call => call Call
  | ExternalOpcode.CallCode => call CallCode
  | ExternalOpcode.DelegateCall => call DelegateCall
  | ExternalOpcode.StaticCall => call StaticCall
  end.

End System.
End System.

(** ** The step driver ([macro_rules! step], [Runtime::step], [Runtime::run]) *)
Section Driver.
Context {H : Type} `{HD : Host.Handler H}.
Variable keccak256 : list Z -> Z.
Variable core_eval : Machine -> Z -> nat -> list Z * Memory * CoreControl.

Notation St := (@State H).
Notation Res := (Resolve Host.CallInterrupt Host.CreateInterrupt).

(** Pre-validation: consult the host on the current opcode, if any; a
    failure exits the machine and records the terminal status. *)
Definition pre_validate_step (s : St) : State :=
  match inspect s.(rt).(machine) with
  | None => s
  | Some (opcode, stk) =>
      let r := s.(rt) in
      let '(h', res) := Host.pre_validate s.(world).(hstate) r.(context) opcode stk in
      let w := mkWorld h' (s.(world).(trace) ++ [HPreValidate r.(context) opcode stk]) in
      match res with
      | Ok _ => mkState r w
      | Err e =>
          mkState (set_status (set_machine r (machine_exit r.(machine) (Err e))) (Err (Err e))) w
      end
  end.

(** Record an exit: [self.machine.exit(exit); self.status = Err(exit)]. *)
Definition exit_frame (s : St) (e : ExitReason) : State :=
  mkState (set_status (set_machine s.(rt) (machine_exit s.(rt).(machine) e)) (Err e))
          s.(world).

Definition step (s : St) : State * result unit (Capture ExitReason Res) :=
  let s := pre_validate_step s in
  match s.(rt).(status) with
  | Err e => (s, Err (Exit e))
  | Ok _ =>
      let '(m', o) := machine_step core_eval s.(rt).(machine) in
      let s := mkState (set_machine s.(rt) m') s.(world) in
      match o with
      | Ok _ => (s, Ok tt)
      | Err (Exit e) => (mkState (set_status s.(rt) (Err e)) s.(world), Err (Exit e))
      | Err (Trap opcode) =>
          let '(s, c) := run_op (System.eval keccak256 opcode) s in
          match c with
          | Continue => (s, Ok tt)
          | CCallInterrupt i => (s, Err (Trap (RCall i)))
          | CCreateInterrupt i => (s, Err (Trap (RCreate i)))
          | CExit e => (exit_frame s e, Err (Exit e))
          end
      end
  end.

(** [Runtime::run]: the [loop] bounded by [fuel]; [None] when the fuel runs
    out before an exit or a trap. *)
Fixpoint run (fuel : nat) (s : St) : option (St * Capture ExitReason Res) :=
  match fuel with
  | O => None
  | S n =>
      match step s with
      | (s', Ok _) => run n s'
      | (s', Err c) => Some (s', c)
      end
  end.

(** The frame states an outer runner can observe: a new runtime, the result
    of a [step], or a frame whose stack, memory and return data a resolver
    (section 4.3) or the host (between steps) has changed. *)
Definition resolved (r : Runtime) (stk : list Z) (mem : Memory) (rdb : list Z) : Runtime :=
  set_return_data_buffer (set_machine r (set_memory (set_stack r.(machine) stk) mem)) rdb.

Inductive reachable : St -> Prop :=
| reach_new code d ctx cfg w :
    reachable (mkState (runtime_new code d ctx cfg) w)
| reach_step s s' o :
    reachable s -> step s = (s', o) -> reachable s'
| reach_resolve s stk mem rdb w :
    reachable s -> reachable (mkState (resolved s.(rt) stk mem rdb) w).

End Driver.

(** ** A scripted host, for running the routines on concrete inputs

    Each [&mut self] method answers with the response stored in the host
    state; the interrupts are [unit]. *)
Record Script := mkScript {
  s_balance : Z;
  s_set_storage : result unit ExitError;
  s_log : result unit ExitError;
  s_transfer : result unit ExitError;
  s_mark_delete : result unit ExitError;
  s_create_address : result Z ExitError;
  s_create : result (Capture ExitReason unit) ExitError;
  s_call : result (Capture (ExitReason * list Z) unit) ExitError;
  s_recoverable : bool;
  s_pre_validate : result unit ExitError;
}.

#[export] Instance script_handler : Host.Handler Script := {
  CreateInterrupt := unit;
  CallInterrupt := unit;
  balance := fun h _ => h.(s_balance);
  storage := fun _ _ _ => 0;
  set_storage := fun h _ _ _ => (h, h.(s_set_storage));
  log := fun h _ _ _ => (h, h.(s_log));
  transfer := fun h _ => (h, h.(s_transfer));
  mark_delete := fun h _ => (h, h.(s_mark_delete));
  create_address := fun h _ _ => (h, h.(s_create_address));
  create := fun h _ _ _ _ _ => (h, h.(s_create));
  call := fun h _ _ _ _ _ _ => (h, h.(s_call));
  is_recoverable := fun h => h.(s_recoverable);
  pre_validate := fun h _ _ _ => (h, h.(s_pre_validate));
}.

(** A host where every operation succeeds: balance 100, created address
    [0xC0], calls exit with [Returned] and the given return data. *)
Definition ok_script (ret_data : list Z) : Script :=
  mkScript 100 (Ok tt) (Ok tt) (Ok tt) (Ok tt) (Ok 192) (Ok (Exit (Ok Returned)))
           (Ok (Exit (Ok Returned, ret_data))) true (Ok tt).

(** A stand-in digest for running examples (not Keccak). *)
Definition toy_digest (l : list Z) : Z :=
  fold_left (fun acc b => (acc * 257 + b) mod 2 ^ 256) l 7.

(** A frame: executing address [0xA], caller [0xB], apparent value [5]. *)
Definition frame_ctx : Context := mkContext 10 11 5.

Definition frame (stk : list Z) (mem : list Z) (rdb : list Z) (h : Script) : @State Script :=
  mkState (mkRuntime (mkMachine [] [] (Ok 0%nat) stk 1024 (mkMemory mem usize_max))
                     (Ok tt) rdb frame_ctx frontier)
          (mkWorld h []).

(** ** Definitions the properties are stated with *)

(** Big-endian reading of a byte string. *)
Definition from_be (l : list Z) : Z := fold_left (fun acc b => acc * 256 + b) l 0.

(** The CREATE2 address as section 4.2.1 words it: the low 20 bytes of
    Keccak-256(0xff ‖ caller(20) ‖ salt(32) ‖ Keccak-256(code)(32)). *)
Definition create2_address_spec (keccak256 : list Z -> Z) (caller salt : Z) (init_code : list Z)
  : Z :=
  let digest := keccak256 ([255] ++ be_bytes 20 caller ++ be_bytes 32 salt
                                  ++ be_bytes 32 (keccak256 init_code)) in
  from_be (skipn 12 (be_bytes 32 digest)).

(** Operand decoding on a bare stack, in the order the routines pop and
    convert; the first failure is the error. *)
Definition rbind {A B E} (m : result A E) (k : A -> result B E) : result B E :=
  match m with Ok a => k a | Err e => Err e end.

Definition pop_l (stk : list Z) : result (Z * list Z) ExitError :=
  match stk with [] => Err StackUnderflow | v :: r => Ok (v, r) end.

Definition usize_l (v : Z) : result Z ExitError :=
  if usize_max <? v then Err NotSupported else Ok v.

Definition call_decode (scheme : CallScheme) (stk : list Z) : result (list Z) ExitError :=
  rbind (pop_l stk) (fun '(gas, stk) =>
  rbind (pop_l stk) (fun '(_, stk) =>
  rbind (usize_l gas) (fun _ =>
  rbind (match scheme with
         | Call | CallCode => rbind (pop_l stk) (fun '(_, stk) => Ok stk)
         | DelegateCall | StaticCall => Ok stk
         end) (fun stk =>
  rbind (pop_l stk) (fun '(in_offset, stk) =>
  rbind (pop_l stk) (fun '(in_len, stk) =>
  rbind (pop_l stk) (fun '(out_offset, stk) =>
  rbind (pop_l stk) (fun '(out_len, stk) =>
  rbind (usize_l in_offset) (fun _ =>
  rbind (usize_l in_len) (fun _ =>
  rbind (usize_l out_offset) (fun _ =>
  rbind (usize_l out_len) (fun _ => Ok stk)))))))))))).

Definition create_decode (is_create2 : bool) (stk : list Z) : result (list Z) ExitError :=
  rbind (pop_l stk) (fun '(_, stk) =>
  rbind (pop_l stk) (fun '(code_offset, stk) =>
  rbind (pop_l stk) (fun '(len, stk) =>
  rbind (usize_l code_offset) (fun _ =>
  rbind (usize_l len) (fun _ =>
  if is_create2 then rbind (pop_l stk) (fun '(_, stk) => Ok stk) else Ok stk))))).

Section FrameProps.
Context {H : Type} `{HD : Host.Handler H}.

(** An opcode routine leaves the terminal status and the program counter to
    the driver. *)
Definition frame_fixed (s s' : @State H) : Prop :=
  s'.(rt).(status) = s.(rt).(status) /\
  s'.(rt).(machine).(position) = s.(rt).(machine).(position).

Definition preserves {A} (m : @Op H HD A) : Prop := forall s, frame_fixed s (fst (m s)).

(** The frame invariant of the driver: a terminal status goes with an
    exited machine carrying the same reason. *)
Definition status_inv (s : @State H) : Prop :=
  forall e, s.(rt).(status) = Err e -> s.(rt).(machine).(position) = Err e.

(** The host calls of a run only ever append to the record. *)
Definition trace_ext (s s' : @State H) : Prop :=
  exists later, s'.(world).(trace) = s.(world).(trace) ++ later.

Definition extends {A} (m : @Op H HD A) : Prop := forall s, trace_ext s (fst (m s)).

(** An operation that does not touch the host. *)
Definition keeps_world {A} (m : @Op H HD A) : Prop :=
  forall s, (fst (m s)).(world) = s.(world).

(** The state after popping down to [rest], with the host moved to [w]. *)
Definition popped (s : @State H) (rest : list Z) (w : @World H) : @State H :=
  mkState (set_machine s.(rt) (set_stack s.(rt).(machine) rest)) w.

Definition logged (s : @State H) (h : H) (evs : list HostCall) : @World H :=
  mkWorld h (s.(world).(trace) ++ evs).
End FrameProps.

(** ** Concrete inputs *)

(** An inner machine whose every pure opcode continues to the next byte. *)
Definition idle_core (m : Machine) (_ : Z) (_ : nat) : list Z * Memory * CoreControl :=
  (m.(stack), m.(memory), CoreContinue 1).

(** A new runtime on empty code, with the all-succeeding scripted host. *)
Definition start_state : @State Script :=
  mkState (runtime_new [] [] frame_ctx frontier) (mkWorld (ok_script []) []).

(** CREATE2 with value 7, init code at [0, 0) and salt 42. *)
Definition create2_frame : @State Script := frame [7; 0; 0; 42] [] [] (ok_script []).

(** SUICIDE to address 77. *)
Definition suicide_frame : @State Script := frame [77] [] [] (ok_script []).

(** A host whose calls and creates exit at once with [OutOfGas]. *)
Definition failing_child_script : Script :=
  mkScript 100 (Ok tt) (Ok tt) (Ok tt) (Ok tt) (Ok 192) (Ok (Exit (Err OutOfGas)))
           (Ok (Exit (Err OutOfGas, [1; 2; 3; 4]))) true (Ok tt).

(** CALL(gas 0, to 99, value 1, input [0, 0), output [0, 8)). *)
Definition call_frame (h : Script) : @State Script := frame [0; 99; 1; 0; 0; 0; 8] [] [] h.

(** CREATE(value 0, init code [0, 0)). *)
Definition create_frame (h : Script) : @State Script := frame [0; 0; 0] [] [] h.

(** CALL(gas usize::MAX, to 99, value 1, input [0, 0), output [0, 0)). *)
Definition call_max_gas_frame : @State Script :=
  frame [usize_max; 99; 1; 0; 0; 0; 0] [] [] (ok_script []).

(** RETURNDATACOPY(destOff 0, srcOff 0, len 8) after a call returned 4 bytes. *)
Definition returndatacopy_frame : @State Script := frame [0; 0; 8] [] [1; 2; 3; 4] (ok_script []).

(** A host whose every [&mut self] operation fails with [OutOfGas]. *)
Definition fail_script (recoverable : bool) : Script :=
  mkScript 100 (Err OutOfGas) (Err OutOfGas) (Err OutOfGas) (Err OutOfGas) (Err OutOfGas)
           (Err OutOfGas) (Err OutOfGas) recoverable (Ok tt).

(** A host whose transfer and [create_address] succeed (the latter with
    [0xC0]) and whose [mark_delete], [create] and [call] fail with [OutOfGas]. *)
Definition late_fail_script (recoverable : bool) : Script :=
  mkScript 100 (Ok tt) (Ok tt) (Ok tt) (Err OutOfGas) (Ok 192) (Err OutOfGas)
           (Err OutOfGas) recoverable (Ok tt).

(** DELEGATECALL(gas 3, to 99, input [0, 0), output [0, 0)). *)
Definition delegatecall_frame : @State Script := frame [3; 99; 0; 0; 0; 0] [] [] (ok_script []).

(** CALL with only two operands on the stack. *)
Definition short_call_frame : @State Script := frame [0; 99] [] [] (ok_script []).

(** CREATE whose code offset [2^64] does not fit a [usize]. *)
Definition wide_create_frame : @State Script := frame [0; 2 ^ 64; 0] [] [] (ok_script []).

(** A new runtime on code [[0x54]] (SLOAD) whose host rejects every opcode
    in [pre_validate] with [OutOfGas]. *)
Definition rejecting_state : @State Script :=
  mkState (runtime_new [84] [] frame_ctx frontier)
          (mkWorld (mkScript 100 (Ok tt) (Ok tt) (Ok tt) (Ok tt) (Ok 192) (Ok (Exit (Ok Returned)))
                             (Ok (Exit (Ok Returned, []))) true (Err OutOfGas)) []).

(** A host whose calls and creates trap (suspend with an interrupt). *)
Definition trap_script : Script :=
  mkScript 100 (Ok tt) (Ok tt) (Ok tt) (Ok tt) (Ok 192) (Ok (Trap tt)) (Ok (Trap tt)) true (Ok tt).

(** ** The environment queries of the host

    The [&self] methods of [trait Handler] that only the environment
    routines below call.  They are kept in a class of their own beside
    [Host.Handler], so that a host is given them separately. *)
Module HostEnv.
Class Env (H : Type) := {
  gas_left : H -> Z;
  gas_price : H -> Z;
  origin : H -> Z;
  block_hash : H -> Z -> Z;
  block_number : H -> Z;
  block_coinbase : H -> Z;
  block_timestamp : H -> Z;
  block_difficulty : H -> Z;
  block_gas_limit : H -> Z;
  chain_id : H -> Z;
  code_size : H -> Z -> Z;
  code_hash : H -> Z -> Z;
  code : H -> Z -> list Z;
}.
End HostEnv.

(** ** The environment routines of [eval/system.rs]

    [chainid], [origin], [gasprice], [extcodesize], [extcodehash],
    [extcodecopy], [blockhash], [coinbase], [timestamp], [number],
    [difficulty], [gaslimit] and [gas].  [H256::from(H160)],
    [to_big_endian] and [into()] between words and addresses keep the
    value. *)
Module SystemEnv.
Section SystemEnv.
Context {H : Type} `{HD : Host.Handler H} `{HE : HostEnv.Env H}.

Notation Ctl := (Control Host.CallInterrupt Host.CreateInterrupt).

Definition chainid : Op Ctl :=
  h <- get_host ;;
  push (HostEnv.chain_id h) ;;;
  ret Continue.

Definition origin : Op Ctl :=
  h <- get_host ;;
  push (HostEnv.origin h) ;;;
  ret Continue.

Definition gasprice : Op Ctl :=
  h <- get_host ;;
  push (HostEnv.gas_price h) ;;;
  ret Continue.

Definition extcodesize : Op Ctl :=
  a <- pop ;;
  h <- get_host ;;
  push (HostEnv.code_size h (h160_of_h256 a)) ;;;
  ret Continue.

Definition extcodehash : Op Ctl :=
  a <- pop ;;
  h <- get_host ;;
  push (HostEnv.code_hash h (h160_of_h256 a)) ;;;
  ret Continue.

Definition extcodecopy : Op Ctl :=
  a <- pop ;;
  memory_offset <- pop ;; code_offset <- pop ;; len <- pop ;;
  h <- get_host ;;
  res <- memory_copy_large memory_offset code_offset len (HostEnv.code h (h160_of_h256 a)) ;;
  match res with
  | Ok _ => ret Continue
  | Err e => ret (CExit (Err e))
  end.

Definition blockhash : Op Ctl :=
  n <- pop ;;
  h <- get_host ;;
  push (HostEnv.block_hash h n) ;;;
  ret Continue.

Definition coinbase : Op Ctl :=
  h <- get_host ;;
  push (HostEnv.block_coinbase h) ;;;
  ret Continue.

Definition timestamp : Op Ctl :=
  h <- get_host ;;
  push (HostEnv.block_timestamp h) ;;;
  ret Continue.

Definition number : Op Ctl :=
  h <- get_host ;;
  push (HostEnv.block_number h) ;;;
  ret Continue.

Definition difficulty : Op Ctl :=
  h <- get_host ;;
  push (HostEnv.block_difficulty h) ;;;
  ret Continue.

Definition gaslimit : Op Ctl :=
  h <- get_host ;;
  push (HostEnv.block_gas_limit h) ;;;
  ret Continue.

Definition gas : Op Ctl :=
  h <- get_host ;;
  push (HostEnv.gas_left h) ;;;
  ret Continue.

End SystemEnv.
End SystemEnv.

(** Environment answers of the scripted host. *)
#[export] Instance script_env : HostEnv.Env Script := {
  gas_left := fun _ => 5000;
  gas_price := fun _ => 3;
  origin := fun _ => 11;
  block_hash := fun _ n => n + 1000;
  block_number := fun _ => 7;
  block_coinbase := fun _ => 42;
  block_timestamp := fun _ => 1600000000;
  block_difficulty := fun _ => 2;
  block_gas_limit := fun _ => 8000000;
  chain_id := fun _ => 1;
  code_size := fun _ _ => 3;
  code_hash := fun _ a => a + 5;
  code := fun _ a => [96; 0; a];
}.

(** ** What a routine leaves alone *)
Section Kept.
Context {H : Type} `{HD : Host.Handler H}.

(** A routine leaves the status, the context, the config, the program
    counter, the code, the call data and the stack limit as they were, and
    keeps a stack that was within its limit within it. *)
Definition frame_kept (s s' : @State H) : Prop :=
  s'.(rt).(status) = s.(rt).(status) /\
  s'.(rt).(context) = s.(rt).(context) /\
  s'.(rt).(config) = s.(rt).(config) /\
  s'.(rt).(machine).(position) = s.(rt).(machine).(position) /\
  s'.(rt).(machine).(code) = s.(rt).(machine).(code) /\
  s'.(rt).(machine).(data) = s.(rt).(machine).(data) /\
  s'.(rt).(machine).(stack_cap) = s.(rt).(machine).(stack_cap) /\
  (Z.of_nat (length s.(rt).(machine).(stack)) <= s.(rt).(machine).(stack_cap) ->
   Z.of_nat (length s'.(rt).(machine).(stack)) <= s'.(rt).(machine).(stack_cap)).

Definition keeps_frame {A} (m : @Op H HD A) : Prop := forall s, frame_kept s (fst (m s)).

(** A routine that only pushes [v s] (on a stack with room) and continues. *)
Definition pushes_only (m : @Op H HD (Control Host.CallInterrupt Host.CreateInterrupt))
    (v : @State H -> Z) : Prop :=
  forall s,
    run_op m s =
      if s.(rt).(machine).(stack_cap) <? Z.of_nat (length s.(rt).(machine).(stack)) + 1
      then (s, CExit (Err StackOverflow))
      else (upd_machine (fun m => set_stack m (v s :: s.(rt).(machine).(stack))) s, Continue).

(** A routine that pops one word [a] and pushes [f s a] in its place, or
    leaves with [StackUnderflow] on an empty stack. *)
Definition replaces_top (m : @Op H HD (Control Host.CallInterrupt Host.CreateInterrupt))
    (f : @State H -> Z -> Z) : Prop :=
  forall s,
    match s.(rt).(machine).(stack) with
    | [] => run_op m s = (s, CExit (Err StackUnderflow))
    | a :: rest =>
        Z.of_nat (length (a :: rest)) <= s.(rt).(machine).(stack_cap) ->
        run_op m s = (upd_machine (fun m => set_stack m (f s a :: rest)) s, Continue)
    end.
End Kept.

(** * Properties *)

(** ** Opcode routines leave status and program counter alone *)
Section Preservation.
Context {H : Type} `{HD : Host.Handler H}.

Lemma frame_fixed_trans (s1 s2 s3 : @State H) :
  frame_fixed s1 s2 -> frame_fixed s2 s3 -> frame_fixed s1 s3.
Proof. unfold frame_fixed; intros [? ?] [? ?]; split; congruence. Qed.

Lemma ret_pres {A} (a : A) : preserves (@ret H HD A a).
Proof. intro s; split; reflexivity. Qed.

Lemma early_pres {A} c : preserves (@early H HD A c).
Proof. intro s; split; reflexivity. Qed.

Lemma bind_pres {A B} (m : @Op H HD A) (k : A -> @Op H HD B) :
  preserves m -> (forall a, preserves (k a)) -> preserves (bind m k).
Proof.
  intros Hm Hk s. unfold bind. specialize (Hm s).
  destruct (m s) as [s1 [a|c]]; simpl in *; [|exact Hm].
  exact (frame_fixed_trans _ _ _ Hm (Hk a s1)).
Qed.

Lemma pop_pres : preserves (@pop H HD).
Proof. intro s; unfold pop; destruct (stack _); split; reflexivity. Qed.

Lemma push_pres v : preserves (@push H HD v).
Proof. intro s; unfold push; destruct (_ <? _); split; reflexivity. Qed.

Lemma as_usize_pres v : preserves (@as_usize H HD v).
Proof. intro s; unfold as_usize; destruct (_ <? _); split; reflexivity. Qed.

Lemma memory_set_pres o v t : preserves (@memory_set H HD o v t).
Proof. intro s; unfold memory_set; destruct (mem_set _ _ _ _); split; reflexivity. Qed.

Lemma memory_copy_large_pres o d l b : preserves (@memory_copy_large H HD o d l b).
Proof. intro s; unfold memory_copy_large; destruct (copy_large _ _ _ _ _); split; reflexivity. Qed.

Lemma put_return_data_buffer_pres b : preserves (@put_return_data_buffer H HD b).
Proof. intro s; split; reflexivity. Qed.

Lemma get_rt_pres : preserves (@get_rt H HD).
Proof. intro s; split; reflexivity. Qed.

Lemma get_host_pres : preserves (@get_host H HD).
Proof. intro s; split; reflexivity. Qed.

Lemma host_pres {A} ev (f : H -> H * A) : preserves (@host H HD A ev f).
Proof. intro s; unfold host; destruct (f _); split; reflexivity. Qed.

Create HintDb pres.
#[local] Hint Resolve ret_pres early_pres pop_pres push_pres as_usize_pres memory_set_pres
  memory_copy_large_pres put_return_data_buffer_pres get_rt_pres get_host_pres
  host_pres : pres.

Ltac pres :=
  repeat (cbv beta zeta; match goal with
  | |- preserves (bind _ _) => apply bind_pres; [ | intro ]
  | |- preserves (match ?x with _ => _ end) => destruct x
  | |- preserves (if ?b then _ else _) => destruct b
  | |- preserves _ => solve [ auto with pres ]
  end).

Lemma pop_topics_pres n : preserves (@System.pop_topics H HD n).
Proof. induction n; simpl; pres. Qed.

Lemma recover_pres e : preserves (@System.recover H HD e).
Proof. unfold System.recover; pres. Qed.

#[local] Hint Resolve pop_topics_pres recover_pres : pres.

Lemma eval_pres keccak256 op : preserves (@System.eval H HD keccak256 op).
Proof.
  destruct op; cbn [System.eval];
    unfold System.sha3, System.address, System.balance, System.selfbalance,
      System.caller, System.callvalue, System.returndatasize, System.returndatacopy,
      System.sload, System.sstore, System.log, System.suicide, System.create,
      System.call; pres.
Qed.

Lemma run_op_pres (m : @Op H HD _) s :
  preserves m -> frame_fixed s (fst (run_op m s)).
Proof.
  intros Hm; specialize (Hm s); unfold run_op.
  destruct (m s) as [s' [c|c]]; exact Hm.
Qed.

End Preservation.

(** ** The terminal status is sticky *)
Section Sticky.
Context {H : Type} `{HD : Host.Handler H}.
Variable keccak256 : list Z -> Z.
Variable core_eval : Machine -> Z -> nat -> list Z * Memory * CoreControl.

Lemma machine_step_exit m m' e :
  machine_step core_eval m = (m', Err (Exit e)) -> m'.(position) = Err e.
Proof.
  unfold machine_step.
  destruct (position m) as [pc|r] eqn:Hp; [|intros [= <- <-]; exact Hp].
  destruct (nth_error (code m) pc) as [op|]; [|intros [= <- <-]; reflexivity].
  destruct (core_eval m op pc) as [[s mem] c].
  destruct c; intros [= <- ?]; try discriminate; subst; reflexivity.
Qed.

Lemma pre_validate_step_inv (s : @State H) :
  status_inv s -> status_inv (pre_validate_step s).
Proof.
  unfold pre_validate_step.
  destruct (inspect _) as [[opcode stk]|]; [|auto].
  destruct (Host.pre_validate _ _ _ _) as [h' [u|e']]; intros Hinv e; simpl.
  - apply Hinv.
  - intros [= <-]; reflexivity.
Qed.

Lemma step_inv (s : @State H) :
  status_inv s -> status_inv (fst (step keccak256 core_eval s)).
Proof.
  intros Hinv0. unfold step.
  pose proof (pre_validate_step_inv s Hinv0) as Hinv.
  set (s1 := pre_validate_step s) in *.
  destruct (status (rt s1)) as [u|e] eqn:Hst; [|exact Hinv].
  destruct (machine_step core_eval (machine (rt s1))) as [m' o] eqn:Hms.
  destruct o as [u'|[e|opcode]].
  - intros e; simpl; rewrite Hst; discriminate.
  - intros e'; simpl; intros [= <-]. exact (machine_step_exit _ _ _ Hms).
  - set (s2 := mkState (set_machine (rt s1) m') (world s1)).
    pose proof (run_op_pres (System.eval keccak256 opcode) s2 (eval_pres _ _)) as [Hs _].
    destruct (run_op (System.eval keccak256 opcode) s2) as [s3 c].
    simpl in Hs.
    destruct c; intros e'; simpl; try (rewrite Hs, Hst; discriminate).
    intros [= <-]; reflexivity.
Qed.

Lemma reachable_inv (s : @State H) :
  reachable keccak256 core_eval s -> status_inv s.
Proof.
  induction 1 as [code d ctx cfg w|s s' o _ IH Hstep|s stk mem rdb w _ IH].
  - intros e; simpl; discriminate.
  - pose proof (step_inv s IH) as Hi; rewrite Hstep in Hi; exact Hi.
  - intros e; simpl; apply IH.
Qed.

Lemma step_exited (s : @State H) e :
  status_inv s -> s.(rt).(status) = Err e ->
  step keccak256 core_eval s = (s, Err (Exit e)).
Proof.
  intros Hinv Hst.
  assert (Hpv : pre_validate_step s = s).
  { unfold pre_validate_step, inspect. rewrite (Hinv e Hst). reflexivity. }
  unfold step. rewrite Hpv, Hst. reflexivity.
Qed.

End Sticky.

(** C4: in every state an outer runner can observe, once the status is
    [Err reason], [step] returns [Exit reason] and leaves the runtime (stack,
    memory, return data, status) and the host (its state and the calls made
    on it) exactly as they were, so every later [step] does the same; [run]
    with any fuel returns [Exit reason] with nothing changed. *)
Theorem status_err_sticky {H} `{HD : Host.Handler H} keccak256 core_eval
    (s : @State H) (e : ExitReason) :
  reachable keccak256 core_eval s ->
  s.(rt).(status) = Err e ->
  step keccak256 core_eval s = (s, Err (Exit e)) /\
  forall n, run keccak256 core_eval (S n) s = Some (s, Exit e).
Proof.
  intros Hr Hst.
  pose proof (reachable_inv keccak256 core_eval s Hr) as Hinv.
  pose proof (step_exited keccak256 core_eval s e Hinv Hst) as Hstep.
  split; [exact Hstep|].
  intros n; simpl; rewrite Hstep; reflexivity.
Qed.

Lemma status_err_sticky_witness :
  let s1 := fst (step toy_digest idle_core start_state) in
  reachable toy_digest idle_core s1 /\ s1.(rt).(status) = Err (Ok Stopped) /\
  (step toy_digest idle_core s1 = (s1, Err (Exit (Ok Stopped))) /\
   forall n, run toy_digest idle_core (S n) s1 = Some (s1, Exit (Ok Stopped))).
Proof.
  intros s1.
  assert (Hr : reachable toy_digest idle_core s1).
  { apply (reach_step toy_digest idle_core start_state s1
             (snd (step toy_digest idle_core start_state))).
    - apply reach_new.
    - apply surjective_pairing. }
  assert (Hs : s1.(rt).(status) = Err (Ok Stopped)) by reflexivity.
  split; [exact Hr|]. split; [exact Hs|].
  exact (status_err_sticky toy_digest idle_core s1 (Ok Stopped) Hr Hs).
Defined.

(** ** Big-endian bytes *)

Lemma from_be_fold l a :
  fold_left (fun acc b => acc * 256 + b) l a = a * 256 ^ Z.of_nat (length l) + from_be l.
Proof.
  unfold from_be. revert a.
  induction l as [|b l IH]; intros a; cbn [fold_left length].
  - cbn. lia.
  - rewrite (IH (a * 256 + b)), (IH (0 * 256 + b)).
    rewrite Nat2Z.inj_succ, Z.pow_succ_r by lia. ring.
Qed.

Lemma be_bytes_S n z :
  be_bytes (S n) z = Z.land (Z.shiftr z (8 * Z.of_nat n)) 255 :: be_bytes n z.
Proof.
  unfold be_bytes. cbn [seq map].
  rewrite Nat.sub_0_r, Nat.sub_1_r. simpl Nat.pred. f_equal.
  rewrite <- seq_shift, map_map. apply map_ext_in.
  intros i Hi. apply in_seq in Hi. do 3 f_equal. lia.
Qed.

Lemma be_bytes_length n z : length (be_bytes n z) = n.
Proof. unfold be_bytes. rewrite length_map, length_seq. reflexivity. Qed.

Lemma from_be_be_bytes n z : from_be (be_bytes n z) = z mod 2 ^ (8 * Z.of_nat n).
Proof.
  induction n as [|n IH].
  - simpl. rewrite Z.mod_1_r. reflexivity.
  - rewrite be_bytes_S. unfold from_be at 1. cbn [fold_left].
    rewrite from_be_fold, be_bytes_length, IH.
    change 255 with (Z.ones 8). rewrite Z.land_ones by lia. rewrite Z.shiftr_div_pow2 by lia.
    replace (8 * Z.of_nat (S n)) with (8 * Z.of_nat n + 8) by lia.
    rewrite Z.pow_add_r by lia.
    rewrite Z.rem_mul_r by (try apply Z.pow_nonzero; lia).
    replace (256 ^ Z.of_nat n) with (2 ^ (8 * Z.of_nat n))
      by (rewrite Z.pow_mul_r by lia; reflexivity).
    change (Z.ones 8) with (2 ^ 8 - 1). change (2 ^ 8) with 256. ring.
Qed.

Lemma skipn_be_bytes_32 d : skipn 12 (be_bytes 32 d) = be_bytes 20 d.
Proof. reflexivity. Qed.

(** The low 20 bytes of a 32-byte digest are its [H160] conversion. *)
Lemma low20_h160 d : from_be (skipn 12 (be_bytes 32 d)) = h160_of_h256 d.
Proof.
  rewrite skipn_be_bytes_32, from_be_be_bytes. unfold h160_of_h256.
  rewrite Z.land_ones by lia. reflexivity.
Qed.

(** ** Running the monad step by step *)
Section Stepping.
Context {H : Type} `{HD : Host.Handler H}.

Lemma run_op_fst (m : @Op H HD _) s : fst (run_op m s) = fst (m s).
Proof. unfold run_op; destruct (m s) as [s' [c|c]]; reflexivity. Qed.

Lemma run_op_ret (m : @Op H HD _) s s' c : m s = (s', inl c) -> run_op m s = (s', c).
Proof. unfold run_op; intros ->; reflexivity. Qed.

Lemma run_op_early (m : @Op H HD _) s s' c : m s = (s', inr c) -> run_op m s = (s', c).
Proof. unfold run_op; intros ->; reflexivity. Qed.

Lemma bind_pop_cons {B} (k : Z -> @Op H HD B) s v r :
  s.(rt).(machine).(stack) = v :: r ->
  bind pop k s = k v (upd_machine (fun m => set_stack m r) s).
Proof. intros E; unfold bind, pop; rewrite E; reflexivity. Qed.

Lemma bind_pop_nil {B} (k : Z -> @Op H HD B) s :
  s.(rt).(machine).(stack) = [] ->
  bind pop k s = (s, inr (CExit (Err StackUnderflow))).
Proof. intros E; unfold bind, pop; rewrite E; reflexivity. Qed.

Lemma bind_as_usize_ok {B} (k : Z -> @Op H HD B) s v :
  v <= usize_max -> bind (as_usize v) k s = k v s.
Proof.
  intros Hv; unfold bind, as_usize.
  replace (usize_max <? v) with false by (symmetry; apply Z.ltb_ge; lia).
  reflexivity.
Qed.

Lemma bind_as_usize_big {B} (k : Z -> @Op H HD B) s v :
  usize_max < v -> bind (as_usize v) k s = (s, inr (CExit (Err NotSupported))).
Proof.
  intros Hv; unfold bind, as_usize.
  replace (usize_max <? v) with true by (symmetry; apply Z.ltb_lt; lia).
  reflexivity.
Qed.

Lemma bind_get_rt {B} (k : Runtime -> @Op H HD B) s : bind get_rt k s = k s.(rt) s.
Proof. reflexivity. Qed.

Lemma bind_get_host {B} (k : H -> @Op H HD B) s : bind get_host k s = k s.(world).(hstate) s.
Proof. reflexivity. Qed.

Lemma bind_ret {A B} (a : A) (k : A -> @Op H HD B) s : bind (ret a) k s = k a s.
Proof. reflexivity. Qed.

Lemma bind_assoc {A B C} (m : @Op H HD A) (f : A -> @Op H HD B) (k : B -> @Op H HD C) s :
  bind (bind m f) k s = bind m (fun x => bind (f x) k) s.
Proof. unfold bind; destruct (m s) as [s' [a|c]]; reflexivity. Qed.

Lemma bind_host {A B} ev (f : H -> H * A) (k : A -> @Op H HD B) s :
  bind (host ev f) k s =
  k (snd (f s.(world).(hstate)))
    (mkState s.(rt) (mkWorld (fst (f s.(world).(hstate))) (s.(world).(trace) ++ [ev]))).
Proof. unfold bind, host; destruct (f _); reflexivity. Qed.

(** Trace extension. *)
Lemma trace_ext_trans (s1 s2 s3 : @State H) :
  trace_ext s1 s2 -> trace_ext s2 s3 -> trace_ext s1 s3.
Proof.
  intros [l1 E1] [l2 E2]; exists (l1 ++ l2); rewrite E2, E1, app_assoc; reflexivity.
Qed.

Lemma trace_ext_refl (s : @State H) : trace_ext s s.
Proof. exists []; rewrite app_nil_r; reflexivity. Qed.

Lemma bind_ext {A B} (m : @Op H HD A) (k : A -> @Op H HD B) :
  extends m -> (forall a, extends (k a)) -> extends (bind m k).
Proof.
  intros Hm Hk s. unfold bind. specialize (Hm s).
  destruct (m s) as [s1 [a|c]]; simpl in *; [|exact Hm].
  exact (trace_ext_trans _ _ _ Hm (Hk a s1)).
Qed.

Lemma keeps_ext {A} (m : @Op H HD A) : keeps_world m -> extends m.
Proof. intros Hm s; unfold trace_ext; rewrite Hm; apply trace_ext_refl. Qed.

Lemma host_ext {A} ev (f : H -> H * A) : extends (@host H HD A ev f).
Proof. intros s; unfold host; destruct (f _); exists [ev]; reflexivity. Qed.

Lemma bind_keeps {A B} (m : @Op H HD A) (k : A -> @Op H HD B) :
  keeps_world m -> (forall a, keeps_world (k a)) -> keeps_world (bind m k).
Proof.
  intros Hm Hk s. unfold bind. specialize (Hm s).
  destruct (m s) as [s1 [a|c]]; simpl in *; [|exact Hm].
  rewrite (Hk a s1); exact Hm.
Qed.

Lemma ret_keeps {A} (a : A) : keeps_world (@ret H HD A a).
Proof. intro; reflexivity. Qed.
Lemma early_keeps {A} c : keeps_world (@early H HD A c).
Proof. intro; reflexivity. Qed.
Lemma pop_keeps : keeps_world (@pop H HD).
Proof. intro s; unfold pop; destruct (stack _); reflexivity. Qed.
Lemma push_keeps v : keeps_world (@push H HD v).
Proof. intro s; unfold push; destruct (_ <? _); reflexivity. Qed.
Lemma as_usize_keeps v : keeps_world (@as_usize H HD v).
Proof. intro s; unfold as_usize; destruct (_ <? _); reflexivity. Qed.
Lemma memory_set_keeps o v t : keeps_world (@memory_set H HD o v t).
Proof. intro s; unfold memory_set; destruct (mem_set _ _ _ _); reflexivity. Qed.
Lemma memory_copy_large_keeps o d l b : keeps_world (@memory_copy_large H HD o d l b).
Proof. intro s; unfold memory_copy_large; destruct (copy_large _ _ _ _ _); reflexivity. Qed.
Lemma put_return_data_buffer_keeps b : keeps_world (@put_return_data_buffer H HD b).
Proof. intro; reflexivity. Qed.
Lemma get_rt_keeps : keeps_world (@get_rt H HD).
Proof. intro; reflexivity. Qed.
Lemma get_host_keeps : keeps_world (@get_host H HD).
Proof. intro; reflexivity. Qed.

End Stepping.

Create HintDb keeps.
#[export] Hint Resolve ret_keeps early_keeps pop_keeps push_keeps as_usize_keeps
  memory_set_keeps memory_copy_large_keeps put_return_data_buffer_keeps get_rt_keeps
  get_host_keeps : keeps.

Ltac keeps :=
  repeat (cbv beta zeta; match goal with
  | |- keeps_world (bind _ _) => apply bind_keeps; [ | intro ]
  | |- keeps_world (match ?x with _ => _ end) => destruct x
  | |- keeps_world (if ?b then _ else _) => destruct b
  | |- keeps_world _ => solve [ auto with keeps ]
  end).

Lemma recover_keeps {H} `{HD : Host.Handler H} e : keeps_world (@System.recover H HD e).
Proof. unfold System.recover; keeps. Qed.

Lemma pop_topics_keeps {H} `{HD : Host.Handler H} n : keeps_world (@System.pop_topics H HD n).
Proof. induction n; simpl; keeps. Qed.

#[export] Hint Resolve recover_keeps pop_topics_keeps : keeps.

Ltac ext :=
  repeat (cbv beta zeta; match goal with
  | |- extends (bind _ _) => apply bind_ext; [ | intro ]
  | |- extends (host _ _) => apply host_ext
  | |- extends (match ?x with _ => _ end) => destruct x
  | |- extends (if ?b then _ else _) => destruct b
  | |- extends _ => apply keeps_ext; solve [ auto with keeps ]
  end).

Lemma create_ext {H} `{HD : Host.Handler H} keccak256 b : extends (@System.create H HD keccak256 b).
Proof. unfold System.create; ext. Qed.

Lemma call_ext {H} `{HD : Host.Handler H} sc : extends (@System.call H HD sc).
Proof. unfold System.call; ext. Qed.

Lemma bind_host_trace {H} `{HD : Host.Handler H} {A B} ev ev' (f : H -> H * A) (k : A -> @Op H HD B) s T :
  s.(world).(trace) = T -> ev = ev' -> (forall a, extends (k a)) ->
  exists later, (fst (bind (host ev f) k s)).(world).(trace) = T ++ ev' :: later.
Proof.
  intros Ht <- Hk. rewrite bind_host.
  destruct (Hk (snd (f s.(world).(hstate)))
             (mkState s.(rt) (mkWorld (fst (f s.(world).(hstate)))
                                     (s.(world).(trace) ++ [ev])))) as [l E].
  exists l. rewrite E. simpl. rewrite Ht, <- app_assoc. reflexivity.
Qed.

Lemma ext_after {H} `{HD : Host.Handler H} {A} (m : @Op H HD A) s :
  extends m -> exists later, (fst (m s)).(world).(trace) = s.(world).(trace) ++ later.
Proof. intros Hm; exact (Hm s). Qed.



(** C3: for every executing (caller) address, salt word and init code, the
    first host call CREATE2 makes is [create_address] with the scheme
    [Fixed] of the low 20 bytes of
    Keccak-256(0xff ‖ caller(20) ‖ salt(32) ‖ Keccak-256(init code)(32)). *)
Theorem create2_fixed_scheme {H} `{HD : Host.Handler H} (keccak256 : list Z -> Z)
    (s : @State H) v code_offset len salt rest :
  s.(rt).(machine).(stack) = v :: code_offset :: len :: salt :: rest ->
  code_offset <= usize_max -> len <= usize_max ->
  exists later,
    (fst (run_op (System.create keccak256 true) s)).(world).(trace) =
    s.(world).(trace) ++
      HCreateAddress s.(rt).(context).(address)
        (Fixed (create2_address_spec keccak256 s.(rt).(context).(address) salt
                  (mem_get s.(rt).(machine).(memory) code_offset len))) :: later.
Proof.
  intros Hs Ho Hl.
  rewrite run_op_fst. unfold System.create.
  rewrite (bind_pop_cons _ _ v _ Hs).
  rewrite (bind_pop_cons _ _ code_offset (len :: salt :: rest)) by reflexivity.
  rewrite (bind_pop_cons _ _ len (salt :: rest)) by reflexivity.
  rewrite bind_as_usize_ok by exact Ho.
  rewrite bind_as_usize_ok by exact Hl.
  rewrite bind_get_rt. cbv beta iota zeta.
  rewrite bind_assoc.
  rewrite (bind_pop_cons _ _ salt rest) by reflexivity.
  rewrite bind_ret.
  apply bind_host_trace; [reflexivity| |intros a; ext].
  unfold create2_address_spec; rewrite low20_h160.
  unfold System.hasher_result, hasher_input, hasher_new; cbn [app].
  rewrite <- !app_assoc. reflexivity.
Qed.

Lemma create2_fixed_scheme_witness :
  create2_frame.(rt).(machine).(stack) = [7; 0; 0; 42] /\ 0 <= usize_max /\ 0 <= usize_max /\
  exists later,
    (fst (run_op (System.create toy_digest true) create2_frame)).(world).(trace) =
    create2_frame.(world).(trace) ++
      HCreateAddress create2_frame.(rt).(context).(address)
        (Fixed (create2_address_spec toy_digest create2_frame.(rt).(context).(address) 42
                  (mem_get create2_frame.(rt).(machine).(memory) 0 0))) :: later.
Proof.
  assert (Hb : 0 <= usize_max) by (unfold usize_max; lia).
  split; [reflexivity|]. split; [exact Hb|]. split; [exact Hb|].
  exact (create2_fixed_scheme toy_digest create2_frame 7 0 0 42 [] eq_refl Hb Hb).
Defined.

(** The whole run of SUICIDE. *)
Lemma suicide_run {H} `{HD : Host.Handler H} (s : @State H) tgt rest :
  s.(rt).(machine).(stack) = tgt :: rest ->
  let a := s.(rt).(context).(address) in
  let h := s.(world).(hstate) in
  let t := mkTransfer a (h160_of_h256 tgt) (Host.balance h a) in
  match Host.transfer h t with
  | (h1, Err e) =>
      run_op System.suicide s = (popped s rest (logged s h1 [HTransfer t]), CExit (Err e))
  | (h1, Ok _) =>
      match Host.mark_delete h1 a with
      | (h2, Ok _) =>
          run_op System.suicide s =
            (popped s rest (logged s h2 [HTransfer t; HMarkDelete a]), CExit (Ok Suicided))
      | (h2, Err e) =>
          run_op System.suicide s =
            (popped s rest (logged s h2 [HTransfer t; HMarkDelete a]), CExit (Err e))
      end
  end.
Proof.
  intros Hs a h t. unfold run_op, System.suicide.
  rewrite (bind_pop_cons _ _ tgt rest Hs), bind_get_rt, bind_get_host. cbv zeta.
  rewrite bind_host. simpl. subst a h t.
  destruct (Host.transfer _ _) as [h1 [u|e]]; simpl; [|reflexivity].
  rewrite bind_host. simpl.
  destruct (Host.mark_delete _ _) as [h2 [u'|e']]; simpl;
    unfold popped, logged; simpl; rewrite <- app_assoc; reflexivity.
Qed.

(** C6: SUICIDE pops the target, asks the host to transfer the executing
    account's whole balance (as [balance] reports it) from the executing
    address to the target, then calls [mark_delete] on the executing address
    and exits with [Suicided]; when the transfer fails, [mark_delete] is not
    called and the frame exits with the transfer's error (and when
    [mark_delete] fails, with its error). *)
Theorem suicide_transfer_then_delete {H} `{HD : Host.Handler H} (s : @State H) tgt rest :
  s.(rt).(machine).(stack) = tgt :: rest ->
  let a := s.(rt).(context).(address) in
  let h := s.(world).(hstate) in
  let t := mkTransfer a (h160_of_h256 tgt) (Host.balance h a) in
  match Host.transfer h t with
  | (h1, Err e) =>
      run_op System.suicide s = (popped s rest (logged s h1 [HTransfer t]), CExit (Err e))
  | (h1, Ok _) =>
      match Host.mark_delete h1 a with
      | (h2, Ok _) =>
          run_op System.suicide s =
            (popped s rest (logged s h2 [HTransfer t; HMarkDelete a]), CExit (Ok Suicided))
      | (h2, Err e) =>
          run_op System.suicide s =
            (popped s rest (logged s h2 [HTransfer t; HMarkDelete a]), CExit (Err e))
      end
  end.
Proof. exact (suicide_run s tgt rest). Qed.


Lemma suicide_transfer_then_delete_witness :
  suicide_frame.(rt).(machine).(stack) = 77 :: [] /\
  let a := suicide_frame.(rt).(context).(address) in
  let h := suicide_frame.(world).(hstate) in
  let t := mkTransfer a (h160_of_h256 77) (Host.balance h a) in
  match Host.transfer h t with
  | (h1, Err e) =>
      run_op System.suicide suicide_frame =
        (popped suicide_frame [] (logged suicide_frame h1 [HTransfer t]), CExit (Err e))
  | (h1, Ok _) =>
      match Host.mark_delete h1 a with
      | (h2, Ok _) =>
          run_op System.suicide suicide_frame =
            (popped suicide_frame [] (logged suicide_frame h2 [HTransfer t; HMarkDelete a]),
             CExit (Ok Suicided))
      | (h2, Err e) =>
          run_op System.suicide suicide_frame =
            (popped suicide_frame [] (logged suicide_frame h2 [HTransfer t; HMarkDelete a]),
             CExit (Err e))
      end
  end.
Proof.
  split; [reflexivity|].
  exact (suicide_transfer_then_delete suicide_frame 77 [] eq_refl).
Defined.

(** C1 (evaluation at the failing input): a CALL whose child exits at once
    with the failure [OutOfGas] (returning 4 bytes) pushes 1, not 0; the
    return data is recorded. *)
Theorem call_pushes_one_on_failed_child :
  let '(s', c) := run_op (System.call Call) (call_frame failing_child_script) in
  s'.(rt).(machine).(stack) = [1] /\ s'.(rt).(return_data_buffer) = [1; 2; 3; 4] /\
  c = Continue.
Proof. vm_compute. repeat split. Qed.

(** C2 (evaluation at the failing input): a CREATE whose child exits at once
    with the failure [OutOfGas] pushes the created address [0xC0], not 0. *)
Theorem create_pushes_address_on_failed_child :
  let '(s', c) := run_op (System.create toy_digest false) (create_frame failing_child_script) in
  s'.(rt).(machine).(stack) = [192] /\ c = Continue.
Proof. vm_compute. repeat split. Qed.

(** C5 (evaluation at the failing input): CALL with requested gas
    [usize::MAX] and value 1 forwards [2299] (the [usize] sum wrapped), not
    [usize::MAX + 2300]. *)
Theorem call_stipend_wraps :
  exists later,
    (fst (run_op (System.call Call) call_max_gas_frame)).(world).(trace) =
      HCall 99 (Some (mkTransfer 10 99 1)) [] (Some 2299) false (mkContext 99 10 1) :: later /\
    2299 <> usize_max + 2300.
Proof. eexists. vm_compute. split; [reflexivity | discriminate]. Qed.

(** C7 counterexample: after a call returned 4 bytes,
    RETURNDATACOPY(destOff 0, srcOff 0, len 8) is not fatal: the frame goes
    on and memory holds the 4 bytes followed by 4 zeros. *)
Lemma returndatacopy_out_of_range_continues :
  let '(s', c) := run_op System.returndatacopy returndatacopy_frame in
  c = Continue /\ s'.(rt).(machine).(memory).(mem_data) = [1; 2; 3; 4; 0; 0; 0; 0].
Proof. vm_compute. split; reflexivity. Qed.

(** ** Memory read-back *)

Lemma map_nth_seq_self (l : list Z) : map (fun i => nth i l 0) (seq 0 (length l)) = l.
Proof.
  apply nth_ext with (d := 0) (d' := 0).
  - rewrite length_map, length_seq; reflexivity.
  - intros n Hn. rewrite length_map, length_seq in Hn.
    rewrite (nth_indep _ 0 (nth 0 l 0)) by (rewrite length_map, length_seq; exact Hn).
    pose proof (map_nth (fun i => nth i l 0) (seq 0 (length l)) 0%nat n) as E.
    cbv beta in E. rewrite E, seq_nth by exact Hn. reflexivity.
Qed.

Lemma resize_length l n : (n <= length (resize l n))%nat.
Proof.
  unfold resize. destruct (Nat.ltb_spec (length l) n).
  - rewrite length_app, repeat_length. lia.
  - lia.
Qed.

Lemma firstn_pad_length (v : list Z) n : length (firstn n (v ++ repeat 0 n)) = n.
Proof. rewrite length_firstn, length_app, repeat_length. lia. Qed.

(** What [Memory::set] wrote is what [Memory::get] reads back. *)
Lemma mem_set_get m offset v ts m' :
  0 <= offset -> 0 <= ts ->
  mem_set m offset v (Some ts) = Ok m' ->
  mem_get m' offset ts = firstn (Z.to_nat ts) (v ++ repeat 0 (Z.to_nat ts)).
Proof.
  intros Ho Ht. unfold mem_set.
  destruct (_ || _); [discriminate|]. intros [= <-].
  unfold mem_get; simpl.
  set (d := resize (mem_data m) (Z.to_nat (offset + ts))).
  set (w := firstn (Z.to_nat ts) (v ++ repeat 0 (Z.to_nat ts))).
  assert (Hd : (Z.to_nat offset + Z.to_nat ts <= length d)%nat).
  { pose proof (resize_length (mem_data m) (Z.to_nat (offset + ts))) as R.
    subst d. rewrite Z2Nat.inj_add in * by lia. exact R. }
  assert (Hw : length w = Z.to_nat ts) by apply firstn_pad_length.
  rewrite <- Hw. rewrite <- (map_nth_seq_self w) at 2.
  apply map_ext_in. intros i Hi. apply in_seq in Hi.
  rewrite app_nth2 by (rewrite length_firstn; lia).
  rewrite length_firstn. replace (Z.to_nat offset + i - Nat.min (Z.to_nat offset) (length d))%nat
    with i by lia.
  apply app_nth1. lia.
Qed.

Lemma firstn_firstn_app (x y : list Z) n : firstn n (firstn n x ++ y) = firstn n (x ++ y).
Proof.
  revert x; induction n as [|n IH]; intros [|a x]; simpl; try reflexivity.
  f_equal; apply IH.
Qed.

(** [copy_large] copies the source from [data_offset] and zero-fills the
    rest of the [len] bytes, whatever the source's length. *)
Lemma copy_large_get m memory_offset data_offset len d :
  0 <= memory_offset <= usize_max -> 0 <= data_offset -> 0 <= len <= usize_max ->
  data_offset + len <= usize_max ->
  memory_offset + len <= usize_max -> memory_offset + len <= m.(mem_limit) ->
  exists m', copy_large m memory_offset data_offset len d = Ok m' /\
    mem_get m' memory_offset len =
      firstn (Z.to_nat len) (skipn (Z.to_nat data_offset) d ++ repeat 0 (Z.to_nat len)).
Proof.
  intros Hmo Hdo Hl Hdl Hml Hlim. unfold copy_large.
  replace ((usize_max <? memory_offset) || (usize_max <? len)) with false
    by (symmetry; apply orb_false_iff; split; apply Z.ltb_ge; lia).
  replace (usize_max <? data_offset + len) with false by (symmetry; apply Z.ltb_ge; lia).
  set (src := if Z.of_nat (length d) <? data_offset then [] else _).
  assert (Hset : exists m', mem_set m memory_offset src (Some len) = Ok m').
  { unfold mem_set.
    replace ((usize_max <? memory_offset + len) || (mem_limit m <? memory_offset + len))
      with false by (symmetry; apply orb_false_iff; split; apply Z.ltb_ge; lia).
    eexists; reflexivity. }
  destruct Hset as [m' Hm']. exists m'. split; [exact Hm'|].
  rewrite (mem_set_get _ _ _ _ _ (proj1 Hmo) (proj1 Hl) Hm').
  subst src. destruct (Z.ltb_spec (Z.of_nat (length d)) data_offset) as [Hlt|Hge].
  - rewrite skipn_all2 by lia. reflexivity.
  - set (x := skipn (Z.to_nat data_offset) d).
    assert (Hx : length x = (length d - Z.to_nat data_offset)%nat) by apply length_skipn.
    replace (Z.to_nat (Z.min (data_offset + len) (Z.of_nat (length d)) - data_offset))
      with (Nat.min (Z.to_nat len) (length x)) by lia.
    destruct (Nat.le_ge_cases (Z.to_nat len) (length x)).
    + rewrite Nat.min_l by lia. apply firstn_firstn_app.
    + rewrite Nat.min_r by lia. rewrite firstn_all. reflexivity.
Qed.

(** C7 (amended): RETURNDATACOPY does not compare [data_offset + len] with
    the length of [return_data_buffer].  When the offsets and the length fit
    a [usize] and the memory limit, it continues, leaves the host alone, pops
    its three operands and writes [len] bytes at [memory_offset]: the return
    data from [data_offset] on, zero-filled past its end.  It fails only when
    [copy_large] does. *)
Theorem returndatacopy_zero_fills {H} `{HD : Host.Handler H} (s : @State H)
    memory_offset data_offset len rest :
  s.(rt).(machine).(stack) = memory_offset :: data_offset :: len :: rest ->
  0 <= memory_offset -> 0 <= data_offset -> 0 <= len ->
  data_offset + len <= usize_max -> memory_offset + len <= usize_max ->
  memory_offset + len <= s.(rt).(machine).(memory).(mem_limit) ->
  let '(s', c) := run_op System.returndatacopy s in
  c = Continue /\ s'.(world) = s.(world) /\ s'.(rt).(machine).(stack) = rest /\
  s'.(rt).(return_data_buffer) = s.(rt).(return_data_buffer) /\
  mem_get s'.(rt).(machine).(memory) memory_offset len =
    firstn (Z.to_nat len)
      (skipn (Z.to_nat data_offset) s.(rt).(return_data_buffer) ++ repeat 0 (Z.to_nat len)).
Proof.
  intros Hs Hmo Hdo Hl Hdl Hml Hlim.
  unfold run_op, System.returndatacopy.
  rewrite (bind_pop_cons _ _ _ _ Hs).
  rewrite (bind_pop_cons _ _ data_offset (len :: rest)) by reflexivity.
  rewrite (bind_pop_cons _ _ len rest) by reflexivity.
  rewrite bind_get_rt.
  destruct (copy_large_get s.(rt).(machine).(memory) memory_offset data_offset len
              s.(rt).(return_data_buffer)) as [m' [Hc Hg]];
    [unfold usize_max in *; lia .. | exact Hlim |].
  unfold bind at 1, memory_copy_large. cbn [rt machine set_machine set_stack upd_machine
    memory return_data_buffer].
  rewrite Hc. cbn. repeat split; assumption.
Qed.

Lemma returndatacopy_zero_fills_witness :
  let '(s', c) := run_op System.returndatacopy returndatacopy_frame in
  c = Continue /\ s'.(world) = returndatacopy_frame.(world) /\ s'.(rt).(machine).(stack) = [] /\
  s'.(rt).(return_data_buffer) = [1; 2; 3; 4] /\
  mem_get s'.(rt).(machine).(memory) 0 8 = [1; 2; 3; 4; 0; 0; 0; 0].
Proof.
  assert (Hu : 8 <= usize_max) by (unfold usize_max; lia).
  exact (returndatacopy_zero_fills returndatacopy_frame 0 0 8 [] eq_refl
           (Z.le_refl 0) (Z.le_refl 0) ltac:(lia) Hu Hu Hu).
Defined.

(** ** Operand decoding and the error paths of the routines *)

Lemma bind_push_ok {H} `{HD : Host.Handler H} {B} v (k : unit -> @Op H HD B) s :
  Z.of_nat (length s.(rt).(machine).(stack)) + 1 <= s.(rt).(machine).(stack_cap) ->
  bind (push v) k s =
  k tt (upd_machine (fun m => set_stack m (v :: s.(rt).(machine).(stack))) s).
Proof.
  intros Hc. unfold bind, push.
  replace (stack_cap _ <? _) with false by (symmetry; apply Z.ltb_ge; lia).
  reflexivity.
Qed.

Lemma recover_step {H} `{HD : Host.Handler H} e (s : @State H) :
  Z.of_nat (length s.(rt).(machine).(stack)) + 1 <= s.(rt).(machine).(stack_cap) ->
  System.recover e s =
  (upd_machine (fun m => set_stack m (0 :: s.(rt).(machine).(stack))) s,
   inl (if Host.is_recoverable s.(world).(hstate) then Continue else CExit (Err e))).
Proof. intros Hc. unfold System.recover. rewrite bind_push_ok by exact Hc. reflexivity. Qed.

Lemma bind_pop_topics {H} `{HD : Host.Handler H} {B} n (k : list Z -> @Op H HD B) s :
  (n <= length s.(rt).(machine).(stack))%nat ->
  bind (System.pop_topics n) k s =
  k (firstn n s.(rt).(machine).(stack))
    (upd_machine (fun m => set_stack m (skipn n s.(rt).(machine).(stack))) s).
Proof.
  revert k s; induction n as [|n IH]; intros k s Hn.
  - destruct s as [[[] ] ]; reflexivity.
  - cbn [System.pop_topics]. rewrite bind_assoc.
    destruct s.(rt).(machine).(stack) as [|t r] eqn:Hs; [simpl in Hn; lia|].
    rewrite (bind_pop_cons _ _ t r Hs). rewrite bind_assoc.
    rewrite IH by (simpl in *; lia). rewrite bind_ret. reflexivity.
Qed.

Lemma usize_l_ok v x : usize_l v = Ok x -> x = v /\ v <= usize_max.
Proof. unfold usize_l. destruct (Z.ltb_spec usize_max v); [discriminate|]. intros [= <-]. auto. Qed.

Lemma usize_l_le x : x <= usize_max -> usize_l x = Ok x.
Proof. intros Hx. unfold usize_l. destruct (Z.ltb_spec usize_max x); [lia | reflexivity]. Qed.

Lemma usize_l_gt x : usize_max < x -> usize_l x = Err NotSupported.
Proof. intros Hx. unfold usize_l. destruct (Z.ltb_spec usize_max x); [reflexivity | lia]. Qed.

(** Inverting the operand decoding of a bare stack. *)
Ltac decode Hd :=
  repeat (cbn [rbind pop_l] in Hd; match type of Hd with
  | context [pop_l ?l] => destruct l; cbn [rbind pop_l] in Hd; [discriminate|]
  | context [usize_l ?x] =>
      let E := fresh "E" in
      destruct (usize_l x) eqn:E; [apply usize_l_ok in E as [_ ?] | discriminate]
  end).

Ltac decode_all Hd :=
  repeat (cbn [rbind pop_l] in Hd; match type of Hd with
  | context [pop_l ?l] => destruct l; cbn [rbind pop_l] in Hd
  | context [usize_l ?x] =>
      let Hx := fresh "Hx" in
      destruct (Z.le_gt_cases x usize_max) as [Hx|Hx];
      [rewrite (usize_l_le x Hx) in Hd | rewrite (usize_l_gt x Hx) in Hd]
  end).

(** Stepping a routine through its pops, conversions and reads. *)
Ltac run_steps :=
  repeat (cbv beta zeta; match goal with
  | |- context [bind pop ?k ?s] => rewrite (bind_pop_cons k s _ _ eq_refl)
  | |- context [bind (as_usize ?v) ?k ?s] => rewrite (bind_as_usize_ok k s v) by assumption
  | |- context [bind get_rt ?k ?s] => rewrite (bind_get_rt k s)
  | |- context [bind get_host ?k ?s] => rewrite (bind_get_host k s)
  | |- context [bind (ret ?a) ?k ?s] => rewrite (bind_ret a k s)
  | |- context [bind (bind ?m ?f) ?k ?s] => rewrite (bind_assoc m f k s)
  end).

Ltac run_all :=
  repeat (cbv beta zeta; match goal with
  | |- context [bind pop ?k ?s] =>
      first [ rewrite (bind_pop_cons k s _ _ eq_refl) | rewrite (bind_pop_nil k s eq_refl) ]
  | |- context [bind (as_usize ?v) ?k ?s] =>
      first [ rewrite (bind_as_usize_ok k s v) by lia | rewrite (bind_as_usize_big k s v) by lia ]
  | |- context [bind get_rt ?k ?s] => rewrite (bind_get_rt k s)
  | |- context [bind get_host ?k ?s] => rewrite (bind_get_host k s)
  | |- context [bind (ret ?a) ?k ?s] => rewrite (bind_ret a k s)
  | |- context [bind (bind ?m ?f) ?k ?s] => rewrite (bind_assoc m f k s)
  end).

Lemma call_decode_ok scheme stk rest :
  call_decode scheme stk = Ok rest ->
  exists gas to v io il oo ol,
    stk = gas :: to :: match scheme with Call | CallCode => [v] | _ => [] end
            ++ io :: il :: oo :: ol :: rest /\
    gas <= usize_max /\ io <= usize_max /\ il <= usize_max /\
    oo <= usize_max /\ ol <= usize_max.
Proof.
  unfold call_decode. intros Hd.
  destruct scheme; decode Hd; cbn [rbind] in Hd; injection Hd as <-.
  1, 2: exists z, z0, z1, z2, z3, z4, z5.
  3, 4: exists z, z0, 0, z1, z2, z3, z4.
  all: split; [reflexivity | repeat split; assumption].
Qed.

Lemma create_decode_ok b stk rest :
  create_decode b stk = Ok rest ->
  exists v code_offset len salt,
    stk = v :: code_offset :: len :: (if b then [salt] else []) ++ rest /\
    code_offset <= usize_max /\ len <= usize_max.
Proof.
  unfold create_decode. intros Hd.
  destruct b; decode Hd; cbn [rbind] in Hd; injection Hd as <-.
  - exists z, z0, z1, z2. split; [reflexivity | split; assumption].
  - exists z, z0, z1, 0. split; [reflexivity | split; assumption].
Qed.

(** Host errors, routine by routine. *)
Lemma sstore_host_error {H} `{HD : Host.Handler H} (s : @State H) index v rest h1 e :
  s.(rt).(machine).(stack) = index :: v :: rest ->
  Host.set_storage s.(world).(hstate) s.(rt).(context).(address) index v = (h1, Err e) ->
  let '(s', c) := run_op System.sstore s in
  s'.(rt).(machine).(stack) = rest /\ c = CExit (Err e).
Proof.
  intros Hs He. unfold run_op, System.sstore.
  rewrite (bind_pop_cons _ _ _ _ Hs), (bind_pop_cons _ _ v rest) by reflexivity.
  rewrite bind_get_rt. cbv zeta. rewrite bind_host. cbn. rewrite He. cbn.
  split; reflexivity.
Qed.

Lemma log_host_error {H} `{HD : Host.Handler H} n (s : @State H) offset len rest h1 e :
  s.(rt).(machine).(stack) = offset :: len :: rest ->
  offset <= usize_max -> len <= usize_max -> (n <= length rest)%nat ->
  Host.log s.(world).(hstate) s.(rt).(context).(address) (firstn n rest)
    (mem_get s.(rt).(machine).(memory) offset len) = (h1, Err e) ->
  let '(s', c) := run_op (System.log n) s in
  s'.(rt).(machine).(stack) = skipn n rest /\ c = CExit (Err e).
Proof.
  intros Hs Ho Hl Hn He. unfold run_op, System.log.
  rewrite (bind_pop_cons _ _ _ _ Hs), (bind_pop_cons _ _ len rest) by reflexivity.
  rewrite !bind_as_usize_ok by assumption.
  rewrite bind_get_rt. cbv zeta.
  rewrite bind_pop_topics by exact Hn.
  rewrite bind_host. cbn. rewrite He. cbn.
  split; reflexivity.
Qed.

Lemma suicide_host_error {H} `{HD : Host.Handler H} (s : @State H) tgt rest e :
  s.(rt).(machine).(stack) = tgt :: rest ->
  let a := s.(rt).(context).(address) in
  let h := s.(world).(hstate) in
  let t := mkTransfer a (h160_of_h256 tgt) (Host.balance h a) in
  (exists h1, Host.transfer h t = (h1, Err e)) \/
  (exists h1 u h2, Host.transfer h t = (h1, Ok u) /\ Host.mark_delete h1 a = (h2, Err e)) ->
  let '(s', c) := run_op System.suicide s in
  s'.(rt).(machine).(stack) = rest /\ c = CExit (Err e).
Proof.
  intros Hs. pose proof (suicide_run s tgt rest Hs) as R. cbv zeta in *.
  intros [[h1 E] | (h1 & u & h2 & E1 & E2)].
  - rewrite E in R. rewrite R. split; reflexivity.
  - rewrite E1, E2 in R. rewrite R. split; reflexivity.
Qed.

Lemma create_address_host_error {H} `{HD : Host.Handler H} keccak256 b (s : @State H) rest h1 e :
  create_decode b s.(rt).(machine).(stack) = Ok rest ->
  Z.of_nat (length rest) + 1 <= s.(rt).(machine).(stack_cap) ->
  (forall scheme, Host.create_address s.(world).(hstate) s.(rt).(context).(address) scheme
                  = (h1, Err e)) ->
  let '(s', c) := run_op (System.create keccak256 b) s in
  s'.(rt).(machine).(stack) = 0 :: rest /\
  c = (if Host.is_recoverable h1 then Continue else CExit (Err e)).
Proof.
  intros Hd Hcap Hca. unfold run_op, System.create.
  destruct s as [[[code data pos stk cap mem] st rdb ctx cfg] [h tr]]; cbn in *.
  apply create_decode_ok in Hd as (v & co & len & salt & -> & ? & ?).
  destruct b; cbn [app]; run_steps.
  all: rewrite bind_host; cbn; rewrite Hca; cbn; rewrite recover_step by exact Hcap; split; reflexivity.
Qed.

Lemma create_host_error {H} `{HD : Host.Handler H} keccak256 b (s : @State H) rest h1 ca h2 e :
  create_decode b s.(rt).(machine).(stack) = Ok rest ->
  Z.of_nat (length rest) + 1 <= s.(rt).(machine).(stack_cap) ->
  (forall scheme, Host.create_address s.(world).(hstate) s.(rt).(context).(address) scheme
                  = (h1, Ok ca)) ->
  (forall t init_code gas ctx, Host.create h1 ca t init_code gas ctx = (h2, Err e)) ->
  let '(s', c) := run_op (System.create keccak256 b) s in
  s'.(rt).(machine).(stack) = 0 :: rest /\
  c = (if Host.is_recoverable h2 then Continue else CExit (Err e)).
Proof.
  intros Hd Hcap Hca Hc. unfold run_op, System.create.
  destruct s as [[[code data pos stk cap mem] st rdb ctx cfg] [h tr]]; cbn in *.
  apply create_decode_ok in Hd as (v & co & len & salt & -> & ? & ?).
  destruct b; cbn [app]; run_steps.
  all: rewrite bind_host; cbn; rewrite Hca; cbn; rewrite bind_host; cbn; rewrite Hc; cbn;
    rewrite recover_step by exact Hcap; split; reflexivity.
Qed.

Lemma call_host_error {H} `{HD : Host.Handler H} scheme (s : @State H) rest h1 e :
  call_decode scheme s.(rt).(machine).(stack) = Ok rest ->
  Z.of_nat (length rest) + 1 <= s.(rt).(machine).(stack_cap) ->
  (forall to t input gas is_static ctx,
     Host.call s.(world).(hstate) to t input gas is_static ctx = (h1, Err e)) ->
  let '(s', c) := run_op (System.call scheme) s in
  s'.(rt).(machine).(stack) = 0 :: rest /\
  c = (if Host.is_recoverable h1 then Continue else CExit (Err e)).
Proof.
  intros Hd Hcap Hc. unfold run_op, System.call.
  destruct s as [[[code data pos stk cap mem] st rdb ctx cfg] [h tr]]; cbn in *.
  apply call_decode_ok in Hd as (gas & to & v & io & il & oo & ol & -> & ? & ? & ? & ? & ?).
  destruct scheme; cbn [app]; run_steps.
  all: rewrite bind_host; cbn; rewrite Hc; cbn; rewrite recover_step by exact Hcap; split; reflexivity.
Qed.

(** Decoding errors, before any host call. *)
Lemma call_decode_error {H} `{HD : Host.Handler H} scheme (s : @State H) e :
  call_decode scheme s.(rt).(machine).(stack) = Err e ->
  let '(s', c) := run_op (System.call scheme) s in
  c = CExit (Err e) /\ s'.(world) = s.(world).
Proof.
  intros Hd. unfold run_op, System.call.
  destruct s as [[[code data pos stk cap mem] st rdb ctx cfg] [h tr]]; cbn in *.
  unfold call_decode in Hd.
  destruct scheme; decode_all Hd; cbn [rbind] in Hd; try discriminate.
  all: injection Hd as <-; run_all; split; reflexivity.
Qed.

Lemma create_decode_error {H} `{HD : Host.Handler H} keccak256 b (s : @State H) e :
  create_decode b s.(rt).(machine).(stack) = Err e ->
  let '(s', c) := run_op (System.create keccak256 b) s in
  c = CExit (Err e) /\ s'.(world) = s.(world).
Proof.
  intros Hd. unfold run_op, System.create.
  destruct s as [[[code data pos stk cap mem] st rdb ctx cfg] [h tr]]; cbn in *.
  unfold create_decode in Hd.
  destruct b; decode_all Hd; cbn [rbind] in Hd; try discriminate;
    injection Hd as <-; run_all; split; reflexivity.
Qed.

(** C8: a host error from [set_storage] (SSTORE), [log] (LOG0..LOG4),
    [transfer] or [mark_delete] (SUICIDE) ends the frame with that error,
    whatever [is_recoverable] says, and nothing is pushed.  An error from
    [create_address] or [create] (CREATE, CREATE2) or from [call] (the CALL
    family) pushes 0, then continues if [is_recoverable] holds on the host
    after the failing call and exits with the error otherwise. *)
Theorem host_errors_fatal_or_recovered {H} `{HD : Host.Handler H} (keccak256 : list Z -> Z) :
  (forall (s : @State H) index v rest h1 e,
     s.(rt).(machine).(stack) = index :: v :: rest ->
     Host.set_storage s.(world).(hstate) s.(rt).(context).(address) index v = (h1, Err e) ->
     let '(s', c) := run_op System.sstore s in
     s'.(rt).(machine).(stack) = rest /\ c = CExit (Err e)) /\
  (forall n (s : @State H) offset len rest h1 e,
     s.(rt).(machine).(stack) = offset :: len :: rest ->
     offset <= usize_max -> len <= usize_max -> (n <= length rest)%nat ->
     Host.log s.(world).(hstate) s.(rt).(context).(address) (firstn n rest)
       (mem_get s.(rt).(machine).(memory) offset len) = (h1, Err e) ->
     let '(s', c) := run_op (System.log n) s in
     s'.(rt).(machine).(stack) = skipn n rest /\ c = CExit (Err e)) /\
  (forall (s : @State H) tgt rest h1 e,
     s.(rt).(machine).(stack) = tgt :: rest ->
     Host.transfer s.(world).(hstate)
       (mkTransfer s.(rt).(context).(address) (h160_of_h256 tgt)
          (Host.balance s.(world).(hstate) s.(rt).(context).(address))) = (h1, Err e) ->
     let '(s', c) := run_op System.suicide s in
     s'.(rt).(machine).(stack) = rest /\ c = CExit (Err e)) /\
  (forall (s : @State H) tgt rest h1 u h2 e,
     s.(rt).(machine).(stack) = tgt :: rest ->
     Host.transfer s.(world).(hstate)
       (mkTransfer s.(rt).(context).(address) (h160_of_h256 tgt)
          (Host.balance s.(world).(hstate) s.(rt).(context).(address))) = (h1, Ok u) ->
     Host.mark_delete h1 s.(rt).(context).(address) = (h2, Err e) ->
     let '(s', c) := run_op System.suicide s in
     s'.(rt).(machine).(stack) = rest /\ c = CExit (Err e)) /\
  (forall b (s : @State H) rest h1 e,
     create_decode b s.(rt).(machine).(stack) = Ok rest ->
     Z.of_nat (length rest) + 1 <= s.(rt).(machine).(stack_cap) ->
     (forall scheme, Host.create_address s.(world).(hstate) s.(rt).(context).(address) scheme
                     = (h1, Err e)) ->
     let '(s', c) := run_op (System.create keccak256 b) s in
     s'.(rt).(machine).(stack) = 0 :: rest /\
     c = (if Host.is_recoverable h1 then Continue else CExit (Err e))) /\
  (forall b (s : @State H) rest h1 create_address h2 e,
     create_decode b s.(rt).(machine).(stack) = Ok rest ->
     Z.of_nat (length rest) + 1 <= s.(rt).(machine).(stack_cap) ->
     (forall scheme, Host.create_address s.(world).(hstate) s.(rt).(context).(address) scheme
                     = (h1, Ok create_address)) ->
     (forall t init_code gas ctx, Host.create h1 create_address t init_code gas ctx = (h2, Err e)) ->
     let '(s', c) := run_op (System.create keccak256 b) s in
     s'.(rt).(machine).(stack) = 0 :: rest /\
     c = (if Host.is_recoverable h2 then Continue else CExit (Err e))) /\
  (forall scheme (s : @State H) rest h1 e,
     call_decode scheme s.(rt).(machine).(stack) = Ok rest ->
     Z.of_nat (length rest) + 1 <= s.(rt).(machine).(stack_cap) ->
     (forall to t input gas is_static ctx,
        Host.call s.(world).(hstate) to t input gas is_static ctx = (h1, Err e)) ->
     let '(s', c) := run_op (System.call scheme) s in
     s'.(rt).(machine).(stack) = 0 :: rest /\
     c = (if Host.is_recoverable h1 then Continue else CExit (Err e))).
Proof.
  split; [exact sstore_host_error|].
  split; [exact log_host_error|].
  split; [intros s tgt rest h1 e Hs E; apply (suicide_host_error s tgt rest e Hs); left; exists h1; exact E|].
  split; [intros s tgt rest h1 u h2 e Hs E1 E2; apply (suicide_host_error s tgt rest e Hs);
          right; exists h1, u, h2; split; assumption|].
  split; [exact (create_address_host_error keccak256)|].
  split; [exact (create_host_error keccak256)|].
  exact call_host_error.
Qed.

Lemma host_errors_fatal_or_recovered_witness :
  (let s := frame [1; 2] [] [] (fail_script true) in
   let '(s', c) := run_op System.sstore s in
   s'.(rt).(machine).(stack) = [] /\ c = CExit (Err OutOfGas)) /\
  (let s := frame [0; 0; 5] [] [] (fail_script true) in
   let '(s', c) := run_op (System.log 1) s in
   s'.(rt).(machine).(stack) = [] /\ c = CExit (Err OutOfGas)) /\
  (let s := frame [77] [] [] (fail_script true) in
   let '(s', c) := run_op System.suicide s in
   s'.(rt).(machine).(stack) = [] /\ c = CExit (Err OutOfGas)) /\
  (let s := frame [77] [] [] (late_fail_script true) in
   let '(s', c) := run_op System.suicide s in
   s'.(rt).(machine).(stack) = [] /\ c = CExit (Err OutOfGas)) /\
  (let s := create_frame (fail_script true) in
   let '(s', c) := run_op (System.create toy_digest false) s in
   s'.(rt).(machine).(stack) = [0] /\ c = Continue) /\
  (let s := create_frame (late_fail_script false) in
   let '(s', c) := run_op (System.create toy_digest false) s in
   s'.(rt).(machine).(stack) = [0] /\ c = CExit (Err OutOfGas)) /\
  (let s := call_frame (fail_script false) in
   let '(s', c) := run_op (System.call Call) s in
   s'.(rt).(machine).(stack) = [0] /\ c = CExit (Err OutOfGas)).
Proof.
  assert (Hu : 0 <= usize_max) by (unfold usize_max; lia).
  destruct (host_errors_fatal_or_recovered toy_digest)
    as (Psstore & Plog & Ptransfer & Pdelete & Pcaddr & Pcreate & Pcall).
  split; [exact (Psstore (frame [1; 2] [] [] (fail_script true)) 1 2 [] (fail_script true) OutOfGas eq_refl eq_refl)|].
  split; [exact (Plog 1%nat (frame [0; 0; 5] [] [] (fail_script true)) 0 0 [5] (fail_script true) OutOfGas eq_refl Hu Hu (le_n 1) eq_refl)|].
  split; [exact (Ptransfer (frame [77] [] [] (fail_script true)) 77 [] (fail_script true) OutOfGas eq_refl eq_refl)|].
  split; [exact (Pdelete (frame [77] [] [] (late_fail_script true)) 77 [] (late_fail_script true) tt
                    (late_fail_script true) OutOfGas eq_refl eq_refl eq_refl)|].
  split; [exact (Pcaddr false (create_frame (fail_script true)) [] (fail_script true) OutOfGas eq_refl ltac:(vm_compute; discriminate)
                   (fun _ => eq_refl))|].
  split; [exact (Pcreate false (create_frame (late_fail_script false)) [] (late_fail_script false) 192
                   (late_fail_script false) OutOfGas eq_refl ltac:(vm_compute; discriminate)
                   (fun _ => eq_refl) (fun _ _ _ _ => eq_refl))|].
  exact (Pcall Call (call_frame (fail_script false)) [] (fail_script false) OutOfGas eq_refl ltac:(vm_compute; discriminate)
           (fun _ _ _ _ _ _ => eq_refl)).
Defined.

(** C9: DELEGATECALL pops no value operand (the input and output words
    follow [to] directly) and forwards the requested gas without a stipend;
    the host's [call] gets no transfer, and the child context has the
    executing frame's address, caller and apparent value. *)
Theorem delegatecall_context {H} `{HD : Host.Handler H} (s : @State H)
    gas to in_offset in_len out_offset out_len rest :
  s.(rt).(machine).(stack) = gas :: to :: in_offset :: in_len :: out_offset :: out_len :: rest ->
  gas <= usize_max -> in_offset <= usize_max -> in_len <= usize_max ->
  out_offset <= usize_max -> out_len <= usize_max ->
  exists later,
    (fst (run_op (System.call DelegateCall) s)).(world).(trace) =
    s.(world).(trace) ++
      HCall (h160_of_h256 to) None (mem_get s.(rt).(machine).(memory) in_offset in_len)
        (Some gas) false
        (mkContext s.(rt).(context).(address) s.(rt).(context).(caller)
                   s.(rt).(context).(apparent_value)) :: later.
Proof.
  intros Hs Hg Hio Hil Hoo Hol.
  rewrite run_op_fst. unfold System.call.
  destruct s as [[[code data pos stk cap mem] st rdb ctx cfg] [h tr]]; cbn in *. subst stk.
  run_steps.
  apply bind_host_trace; [reflexivity | reflexivity | intros a; ext].
Qed.

Lemma delegatecall_context_witness :
  delegatecall_frame.(rt).(machine).(stack) = [3; 99; 0; 0; 0; 0] /\
  3 <= usize_max /\ 0 <= usize_max /\
  exists later,
    (fst (run_op (System.call DelegateCall) delegatecall_frame)).(world).(trace) =
    delegatecall_frame.(world).(trace) ++
      HCall (h160_of_h256 99) None (mem_get delegatecall_frame.(rt).(machine).(memory) 0 0)
        (Some 3) false (mkContext 10 11 5) :: later.
Proof.
  assert (Hu : 0 <= usize_max) by (unfold usize_max; lia).
  assert (H3 : 3 <= usize_max) by (unfold usize_max; lia).
  split; [reflexivity|]. split; [exact H3|]. split; [exact Hu|].
  exact (delegatecall_context delegatecall_frame 3 99 0 0 0 0 [] eq_refl H3 Hu Hu Hu Hu).
Defined.

(** C10: when popping or converting to [usize] an operand of a CALL-family
    opcode or of CREATE/CREATE2 fails ([call_decode] / [create_decode] give
    the first failure), the routine exits with that error and the host
    (its state and the record of its calls) is untouched. *)
Theorem decode_error_before_host {H} `{HD : Host.Handler H} (keccak256 : list Z -> Z) :
  (forall scheme (s : @State H) e,
     call_decode scheme s.(rt).(machine).(stack) = Err e ->
     let '(s', c) := run_op (System.call scheme) s in
     c = CExit (Err e) /\ s'.(world) = s.(world)) /\
  (forall b (s : @State H) e,
     create_decode b s.(rt).(machine).(stack) = Err e ->
     let '(s', c) := run_op (System.create keccak256 b) s in
     c = CExit (Err e) /\ s'.(world) = s.(world)).
Proof. split; [exact call_decode_error | exact (create_decode_error keccak256)]. Qed.

Lemma decode_error_before_host_witness :
  call_decode Call short_call_frame.(rt).(machine).(stack) = Err StackUnderflow /\
  create_decode false wide_create_frame.(rt).(machine).(stack) = Err NotSupported /\
  (let '(s', c) := run_op (System.call Call) short_call_frame in
   c = CExit (Err StackUnderflow) /\ s'.(world) = short_call_frame.(world)) /\
  (let '(s', c) := run_op (System.create toy_digest false) wide_create_frame in
   c = CExit (Err NotSupported) /\ s'.(world) = wide_create_frame.(world)).
Proof.
  destruct (decode_error_before_host toy_digest) as [Pcall Pcreate].
  split; [reflexivity|]. split; [reflexivity|].
  split; [exact (Pcall Call short_call_frame StackUnderflow eq_refl)|].
  exact (Pcreate false wide_create_frame NotSupported eq_refl).
Defined.

(** * Further properties of the runtime *)

Section KeptLemmas.
Context {H : Type} `{HD : Host.Handler H}.

Lemma frame_kept_refl (s : @State H) : frame_kept s s.
Proof. repeat split; auto. Qed.

Lemma frame_kept_trans (s1 s2 s3 : @State H) :
  frame_kept s1 s2 -> frame_kept s2 s3 -> frame_kept s1 s3.
Proof.
  intros (A1 & B1 & C1 & D1 & E1 & F1 & G1 & K1) (A2 & B2 & C2 & D2 & E2 & F2 & G2 & K2).
  repeat split; try congruence. auto.
Qed.

Lemma bind_kept {A B} (m : @Op H HD A) (k : A -> @Op H HD B) :
  keeps_frame m -> (forall a, keeps_frame (k a)) -> keeps_frame (bind m k).
Proof.
  intros Hm Hk s. unfold bind. specialize (Hm s).
  destruct (m s) as [s1 [a|c]]; simpl in *; [|exact Hm].
  exact (frame_kept_trans _ _ _ Hm (Hk a s1)).
Qed.

Lemma ret_kept {A} (a : A) : keeps_frame (@ret H HD A a).
Proof. intro; apply frame_kept_refl. Qed.
Lemma get_rt_kept : keeps_frame (@get_rt H HD).
Proof. intro; apply frame_kept_refl. Qed.
Lemma get_host_kept : keeps_frame (@get_host H HD).
Proof. intro; apply frame_kept_refl. Qed.
Lemma as_usize_kept v : keeps_frame (@as_usize H HD v).
Proof. intro s; unfold as_usize; destruct (_ <? _); apply frame_kept_refl. Qed.
Lemma pop_kept : keeps_frame (@pop H HD).
Proof.
  intro s; unfold pop; destruct (stack _) as [|v r] eqn:E; [apply frame_kept_refl|].
  repeat split; simpl; auto. rewrite E; simpl. lia.
Qed.
Lemma push_kept v : keeps_frame (@push H HD v).
Proof.
  intro s; unfold push; destruct (Z.ltb_spec (stack_cap (machine (rt s)))
    (Z.of_nat (length (stack (machine (rt s)))) + 1)); [apply frame_kept_refl|].
  repeat split; simpl; auto. intros _. lia.
Qed.
Lemma memory_set_kept o v t : keeps_frame (@memory_set H HD o v t).
Proof.
  intro s; unfold memory_set; destruct (mem_set _ _ _ _); [|apply frame_kept_refl].
  repeat split; simpl; auto.
Qed.
Lemma memory_copy_large_kept o d l b : keeps_frame (@memory_copy_large H HD o d l b).
Proof.
  intro s; unfold memory_copy_large; destruct (copy_large _ _ _ _ _); [|apply frame_kept_refl].
  repeat split; simpl; auto.
Qed.
Lemma put_return_data_buffer_kept b : keeps_frame (@put_return_data_buffer H HD b).
Proof. intro s; repeat split; simpl; auto. Qed.
Lemma host_kept {A} ev (f : H -> H * A) : keeps_frame (@host H HD A ev f).
Proof. intro s; unfold host; destruct (f _); repeat split; simpl; auto. Qed.

End KeptLemmas.

Create HintDb kept.
#[export] Hint Resolve ret_kept get_rt_kept get_host_kept as_usize_kept pop_kept push_kept
  memory_set_kept memory_copy_large_kept put_return_data_buffer_kept host_kept : kept.

Ltac kept :=
  repeat (cbv beta zeta; match goal with
  | |- keeps_frame (bind _ _) => apply bind_kept; [ | intro ]
  | |- keeps_frame (match ?x with _ => _ end) => destruct x
  | |- keeps_frame (if ?b then _ else _) => destruct b
  | |- keeps_frame _ => solve [ auto with kept ]
  end).

Lemma pop_topics_kept {H} `{HD : Host.Handler H} n : keeps_frame (@System.pop_topics H HD n).
Proof. induction n; simpl; kept. Qed.
Lemma recover_kept {H} `{HD : Host.Handler H} e : keeps_frame (@System.recover H HD e).
Proof. unfold System.recover; kept. Qed.
#[export] Hint Resolve pop_topics_kept recover_kept : kept.

(** No opcode routine of [eval/system.rs] changes the frame's status,
    context, config, program counter, code, call data or stack limit, and a
    stack within its limit stays within it, whatever the host answers. *)
Theorem routines_keep_frame {H} `{HD : Host.Handler H} `{HE : HostEnv.Env H}
    (keccak256 : list Z -> Z) :
  keeps_frame (System.sha3 keccak256) /\ keeps_frame System.address /\
  keeps_frame System.balance /\ keeps_frame System.selfbalance /\
  keeps_frame System.caller /\ keeps_frame System.callvalue /\
  keeps_frame System.returndatasize /\ keeps_frame System.returndatacopy /\
  keeps_frame System.sload /\ keeps_frame System.sstore /\
  (forall n, keeps_frame (System.log n)) /\ keeps_frame System.suicide /\
  (forall b, keeps_frame (System.create keccak256 b)) /\
  (forall scheme, keeps_frame (System.call scheme)) /\
  keeps_frame SystemEnv.chainid /\ keeps_frame SystemEnv.origin /\
  keeps_frame SystemEnv.gasprice /\ keeps_frame SystemEnv.extcodesize /\
  keeps_frame SystemEnv.extcodehash /\ keeps_frame SystemEnv.extcodecopy /\
  keeps_frame SystemEnv.blockhash /\ keeps_frame SystemEnv.coinbase /\
  keeps_frame SystemEnv.timestamp /\ keeps_frame SystemEnv.number /\
  keeps_frame SystemEnv.difficulty /\ keeps_frame SystemEnv.gaslimit /\
  keeps_frame SystemEnv.gas.
Proof.
  unfold System.sha3, System.address, System.balance, System.selfbalance,
    System.caller, System.callvalue, System.returndatasize, System.returndatacopy,
    System.sload, System.sstore, System.log, System.suicide, System.create, System.call,
    SystemEnv.chainid, SystemEnv.origin, SystemEnv.gasprice, SystemEnv.extcodesize,
    SystemEnv.extcodehash, SystemEnv.extcodecopy, SystemEnv.blockhash, SystemEnv.coinbase,
    SystemEnv.timestamp, SystemEnv.number, SystemEnv.difficulty, SystemEnv.gaslimit,
    SystemEnv.gas.
  repeat match goal with |- _ /\ _ => split end; intros; kept.
Qed.

(** CHAINID, ORIGIN, GASPRICE, COINBASE, TIMESTAMP, NUMBER, DIFFICULTY,
    GASLIMIT, GAS, ADDRESS, CALLER, CALLVALUE, SELFBALANCE and RETURNDATASIZE
    pop nothing, push their value and continue, or leave with
    [StackOverflow] and nothing changed when the stack is full. *)
Theorem env_routines_push_one {H} `{HD : Host.Handler H} `{HE : HostEnv.Env H} :
  pushes_only SystemEnv.chainid (fun s => HostEnv.chain_id s.(world).(hstate)) /\
  pushes_only SystemEnv.origin (fun s => HostEnv.origin s.(world).(hstate)) /\
  pushes_only SystemEnv.gasprice (fun s => HostEnv.gas_price s.(world).(hstate)) /\
  pushes_only SystemEnv.coinbase (fun s => HostEnv.block_coinbase s.(world).(hstate)) /\
  pushes_only SystemEnv.timestamp (fun s => HostEnv.block_timestamp s.(world).(hstate)) /\
  pushes_only SystemEnv.number (fun s => HostEnv.block_number s.(world).(hstate)) /\
  pushes_only SystemEnv.difficulty (fun s => HostEnv.block_difficulty s.(world).(hstate)) /\
  pushes_only SystemEnv.gaslimit (fun s => HostEnv.block_gas_limit s.(world).(hstate)) /\
  pushes_only SystemEnv.gas (fun s => HostEnv.gas_left s.(world).(hstate)) /\
  pushes_only System.address (fun s => s.(rt).(context).(address)) /\
  pushes_only System.caller (fun s => s.(rt).(context).(caller)) /\
  pushes_only System.callvalue (fun s => s.(rt).(context).(apparent_value)) /\
  pushes_only System.selfbalance
    (fun s => Host.balance s.(world).(hstate) s.(rt).(context).(address)) /\
  pushes_only System.returndatasize (fun s => Z.of_nat (length s.(rt).(return_data_buffer))).
Proof.
  repeat match goal with |- _ /\ _ => split end; intros s;
    unfold SystemEnv.chainid, SystemEnv.origin, SystemEnv.gasprice, SystemEnv.coinbase,
      SystemEnv.timestamp, SystemEnv.number, SystemEnv.difficulty, SystemEnv.gaslimit,
      SystemEnv.gas, System.address, System.caller, System.callvalue, System.selfbalance,
      System.returndatasize;
    unfold run_op, bind, get_host, get_rt, push, ret;
    destruct (_ <? _); reflexivity.
Qed.

(** BALANCE, SLOAD, EXTCODESIZE, EXTCODEHASH and BLOCKHASH replace the top
    word by their result and continue, so they never overflow a stack within
    its limit; on an empty stack they leave with [StackUnderflow] and
    nothing changed. *)
Theorem pop_push_routines_never_overflow {H} `{HD : Host.Handler H} `{HE : HostEnv.Env H} :
  replaces_top System.balance (fun s a => Host.balance s.(world).(hstate) (h160_of_h256 a)) /\
  replaces_top System.sload
    (fun s a => Host.storage s.(world).(hstate) s.(rt).(context).(address) a) /\
  replaces_top SystemEnv.extcodesize
    (fun s a => HostEnv.code_size s.(world).(hstate) (h160_of_h256 a)) /\
  replaces_top SystemEnv.extcodehash
    (fun s a => HostEnv.code_hash s.(world).(hstate) (h160_of_h256 a)) /\
  replaces_top SystemEnv.blockhash (fun s a => HostEnv.block_hash s.(world).(hstate) a).
Proof.
  repeat match goal with |- _ /\ _ => split end; intros s;
    unfold System.balance, System.sload, SystemEnv.extcodesize,
      SystemEnv.extcodehash, SystemEnv.blockhash;
    destruct (stack (machine (rt s))) as [|a rest] eqn:Hs.
  all: try (unfold run_op; rewrite bind_pop_nil by exact Hs; reflexivity).
  all: intros Hcap; unfold run_op; rewrite (bind_pop_cons _ _ a rest Hs); cbv beta;
      repeat (rewrite ?bind_get_host, ?bind_get_rt; cbv beta); rewrite bind_push_ok by (cbn; simpl in Hcap; lia);
      reflexivity.
Qed.

Section DriverProps.
Context {H : Type} `{HD : Host.Handler H}.
Variable keccak256 : list Z -> Z.
Variable core_eval : Machine -> Z -> nat -> list Z * Memory * CoreControl.

Lemma step_status (s : @State H) :
  let '(s', o) := step keccak256 core_eval s in
  match o with
  | Err (Exit e) => s'.(rt).(status) = Err e
  | _ => s'.(rt).(status) = Ok tt
  end.
Proof.
  unfold step.
  set (s1 := pre_validate_step s).
  destruct (status (rt s1)) as [[]|e] eqn:Hst; [|exact Hst].
  destruct (machine_step core_eval (machine (rt s1))) as [m' o] eqn:Hms.
  destruct o as [u'|[e|opcode]]; [exact Hst|reflexivity|].
  set (s2 := mkState (set_machine (rt s1) m') (world s1)).
  pose proof (run_op_pres (System.eval keccak256 opcode) s2 (eval_pres _ _)) as [Hs _].
  destruct (run_op (System.eval keccak256 opcode) s2) as [s3 c].
  simpl in Hs. destruct c; simpl; try (rewrite Hs; exact Hst). reflexivity.
Qed.

(** The result of [step] agrees with the status it leaves: [Exit e] comes
    with status [Err e], anything else with status [Ok]. *)
Theorem step_result_matches_status (s : @State H) :
  let '(s', o) := step keccak256 core_eval s in
  match o with
  | Err (Exit e) => s'.(rt).(status) = Err e
  | _ => s'.(rt).(status) = Ok tt
  end.
Proof. exact (step_status s). Qed.

(** When [run] stops, an [Exit e] result comes with status [Err e] and a
    [Trap] result with status [Ok]. *)
Theorem run_result_matches_status fuel (s s' : @State H) c :
  run keccak256 core_eval fuel s = Some (s', c) ->
  match c with
  | Exit e => s'.(rt).(status) = Err e
  | Trap _ => s'.(rt).(status) = Ok tt
  end.
Proof.
  revert s; induction fuel as [|n IH]; intros s; simpl; [discriminate|].
  pose proof (step_status s) as Hs.
  destruct (step keccak256 core_eval s) as [s1 [u|c1]]; [apply IH|].
  intros [= <- <-]. destruct c1 as [e|i]; exact Hs.
Qed.

(** When the host's [pre_validate] rejects the next opcode, [step] exits
    with that error: the machine stops, the status records it, the opcode
    is not executed and [pre_validate] is the only host call made. *)
Theorem pre_validate_error_skips_opcode (s : @State H) opcode stk h' e :
  inspect s.(rt).(machine) = Some (opcode, stk) ->
  Host.pre_validate s.(world).(hstate) s.(rt).(context) opcode stk = (h', Err e) ->
  step keccak256 core_eval s =
  (mkState (set_status (set_machine s.(rt) (machine_exit s.(rt).(machine) (Err e))) (Err (Err e)))
           (mkWorld h' (s.(world).(trace) ++ [HPreValidate s.(rt).(context) opcode stk])),
   Err (Exit (Err e))).
Proof.
  intros Hi Hp. unfold step, pre_validate_step. rewrite Hi, Hp. reflexivity.
Qed.

(** In every state an outer runner can observe, a status [Err e] comes
    with the machine stopped at the same reason. *)
Theorem reachable_status_stops_machine (s : @State H) e :
  reachable keccak256 core_eval s ->
  s.(rt).(status) = Err e -> s.(rt).(machine).(position) = Err e.
Proof. intros Hr; exact (reachable_inv keccak256 core_eval s Hr e). Qed.

End DriverProps.

Lemma run_result_matches_status_witness :
  run toy_digest idle_core 2 start_state = Some (fst (step toy_digest idle_core start_state), Exit (Ok Stopped)) /\
  (fst (step toy_digest idle_core start_state)).(rt).(status) = Err (Ok Stopped).
Proof.
  assert (E : run toy_digest idle_core 2 start_state =
              Some (fst (step toy_digest idle_core start_state), Exit (Ok Stopped)))
    by reflexivity.
  split; [exact E|].
  exact (run_result_matches_status toy_digest idle_core 2 start_state _ _ E).
Defined.

Lemma pre_validate_error_skips_opcode_witness :
  step toy_digest idle_core rejecting_state =
  (mkState (set_status (set_machine rejecting_state.(rt)
                          (machine_exit rejecting_state.(rt).(machine) (Err OutOfGas)))
                       (Err (Err OutOfGas)))
           (mkWorld rejecting_state.(world).(hstate)
                    [HPreValidate frame_ctx 84 []]),
   Err (Exit (Err OutOfGas))).
Proof.
  exact (pre_validate_error_skips_opcode toy_digest idle_core rejecting_state 84 []
           rejecting_state.(world).(hstate) OutOfGas eq_refl eq_refl).
Defined.

Lemma reachable_status_stops_machine_witness :
  reachable toy_digest idle_core (fst (step toy_digest idle_core start_state)) /\
  (fst (step toy_digest idle_core start_state)).(rt).(machine).(position) = Err (Ok Stopped).
Proof.
  assert (R : reachable toy_digest idle_core (fst (step toy_digest idle_core start_state))).
  { exact (reach_step toy_digest idle_core start_state _ (Err (Exit (Ok Stopped)))
             (reach_new toy_digest idle_core [] [] frame_ctx frontier _) eq_refl). }
  split; [exact R|].
  exact (reachable_status_stops_machine toy_digest idle_core _ (Ok Stopped) R eq_refl).
Defined.


(** The host call made by CALL, CALLCODE and STATICCALL: CALL transfers
    the value from the executing address to [to] and runs in a context at
    [to]; CALLCODE transfers to itself and runs at its own address; both add
    the stipend when the value is not zero; STATICCALL transfers nothing,
    forwards the gas as given, runs at [to] with value 0 and is static. *)
Theorem call_host_arguments {H} `{HD : Host.Handler H} :
  (forall (s : @State H) gas to v io il oo ol rest,
     s.(rt).(machine).(stack) = gas :: to :: v :: io :: il :: oo :: ol :: rest ->
     gas <= usize_max -> io <= usize_max -> il <= usize_max ->
     oo <= usize_max -> ol <= usize_max ->
     let self := s.(rt).(context).(address) in
     exists later,
       (fst (run_op (System.call Call) s)).(world).(trace) =
       s.(world).(trace) ++
         HCall (h160_of_h256 to) (Some (mkTransfer self (h160_of_h256 to) v))
           (mem_get s.(rt).(machine).(memory) io il)
           (Some (if v =? 0 then gas else System.add_stipend gas s.(rt).(config).(call_stipend)))
           false (mkContext (h160_of_h256 to) self v) :: later) /\
  (forall (s : @State H) gas to v io il oo ol rest,
     s.(rt).(machine).(stack) = gas :: to :: v :: io :: il :: oo :: ol :: rest ->
     gas <= usize_max -> io <= usize_max -> il <= usize_max ->
     oo <= usize_max -> ol <= usize_max ->
     let self := s.(rt).(context).(address) in
     exists later,
       (fst (run_op (System.call CallCode) s)).(world).(trace) =
       s.(world).(trace) ++
         HCall (h160_of_h256 to) (Some (mkTransfer self self v))
           (mem_get s.(rt).(machine).(memory) io il)
           (Some (if v =? 0 then gas else System.add_stipend gas s.(rt).(config).(call_stipend)))
           false (mkContext self self v) :: later) /\
  (forall (s : @State H) gas to io il oo ol rest,
     s.(rt).(machine).(stack) = gas :: to :: io :: il :: oo :: ol :: rest ->
     gas <= usize_max -> io <= usize_max -> il <= usize_max ->
     oo <= usize_max -> ol <= usize_max ->
     let self := s.(rt).(context).(address) in
     exists later,
       (fst (run_op (System.call StaticCall) s)).(world).(trace) =
       s.(world).(trace) ++
         HCall (h160_of_h256 to) None (mem_get s.(rt).(machine).(memory) io il)
           (Some gas) true (mkContext (h160_of_h256 to) self 0) :: later).
Proof.
  repeat split; intros s; intros;
    rewrite run_op_fst; unfold System.call;
    destruct s as [[[code data pos stk cap mem] st rdb ctx cfg] [h tr]]; cbn in *; subst stk;
    run_steps; apply bind_host_trace; try reflexivity; intros a; ext.
Qed.

Lemma bind_memory_set {H} `{HD : Host.Handler H} {B} o v t (k : result unit ExitError -> @Op H HD B) s :
  bind (memory_set o v t) k s =
  match mem_set s.(rt).(machine).(memory) o v t with
  | Ok mem => k (Ok tt) (upd_machine (fun m => set_memory m mem) s)
  | Err e => k (Err e) s
  end.
Proof. unfold bind, memory_set; destruct (mem_set _ _ _ _); reflexivity. Qed.

Lemma bind_put_return_data_buffer {H} `{HD : Host.Handler H} {B} b (k : unit -> @Op H HD B) s :
  bind (put_return_data_buffer b) k s =
  k tt (mkState (set_return_data_buffer s.(rt) b) s.(world)).
Proof. reflexivity. Qed.

(** When the host's [call] exits at once with data [d], the return data
    buffer becomes [d] (whether or not the output copy succeeds), one word
    replaces the operands, and a following RETURNDATASIZE pushes the length
    of [d]. *)
Theorem call_exit_sets_return_data {H} `{HD : Host.Handler H} scheme (s : @State H) rest h1 r d :
  call_decode scheme s.(rt).(machine).(stack) = Ok rest ->
  Z.of_nat (length rest) + 2 <= s.(rt).(machine).(stack_cap) ->
  (forall to t input gas is_static ctx,
     Host.call s.(world).(hstate) to t input gas is_static ctx = (h1, Ok (Exit (r, d)))) ->
  let s' := fst (run_op (System.call scheme) s) in
  s'.(rt).(return_data_buffer) = d /\
  (exists w, s'.(rt).(machine).(stack) = w :: rest) /\
  run_op System.returndatasize s' =
    (upd_machine (fun m => set_stack m (Z.of_nat (length d) :: s'.(rt).(machine).(stack))) s',
     Continue).
Proof.
  intros Hd Hcap Hc. rewrite run_op_fst. unfold System.call.
  destruct s as [[[code data pos stk cap mem] st rdb ctx cfg] [h tr]]; cbn in *.
  apply call_decode_ok in Hd as (gas & to & v & io & il & oo & ol & -> & ? & ? & ? & ? & ?).
  destruct scheme; cbn [app]; run_steps.
  all: rewrite bind_host; cbn; rewrite Hc; cbn.
  all: rewrite ?bind_put_return_data_buffer, ?bind_get_rt, bind_memory_set; cbn.
  all: destruct (mem_set _ oo d (Some ol)) as [m'|e].
  all: first [ rewrite bind_push_ok by (cbn; lia) | rewrite recover_step by (cbn; lia) ]; cbn.
  all: split; [reflexivity | split; [eexists; reflexivity | ]].
  all: unfold run_op, System.returndatasize; rewrite bind_get_rt;
       rewrite bind_push_ok by (cbn; lia); reflexivity.
Qed.

(** When the host's [call] or [create] traps, the routine pushes 0, keeps
    the return data buffer and hands the interrupt to the caller. *)
Theorem call_create_trap_interrupts {H} `{HD : Host.Handler H} (keccak256 : list Z -> Z) :
  (forall scheme (s : @State H) rest h1 i,
     call_decode scheme s.(rt).(machine).(stack) = Ok rest ->
     Z.of_nat (length rest) + 1 <= s.(rt).(machine).(stack_cap) ->
     (forall to t input gas is_static ctx,
        Host.call s.(world).(hstate) to t input gas is_static ctx = (h1, Ok (Trap i))) ->
     let '(s', c) := run_op (System.call scheme) s in
     s'.(rt).(machine).(stack) = 0 :: rest /\
     s'.(rt).(return_data_buffer) = s.(rt).(return_data_buffer) /\
     c = CCallInterrupt i) /\
  (forall b (s : @State H) rest h1 create_address h2 i,
     create_decode b s.(rt).(machine).(stack) = Ok rest ->
     Z.of_nat (length rest) + 1 <= s.(rt).(machine).(stack_cap) ->
     (forall scheme, Host.create_address s.(world).(hstate) s.(rt).(context).(address) scheme
                     = (h1, Ok create_address)) ->
     (forall t init_code gas ctx, Host.create h1 create_address t init_code gas ctx = (h2, Ok (Trap i))) ->
     let '(s', c) := run_op (System.create keccak256 b) s in
     s'.(rt).(machine).(stack) = 0 :: rest /\
     s'.(rt).(return_data_buffer) = s.(rt).(return_data_buffer) /\
     c = CCreateInterrupt i).
Proof.
  split.
  - intros scheme s rest h1 i Hd Hcap Hc. unfold run_op, System.call.
    destruct s as [[[code data pos stk cap mem] st rdb ctx cfg] [h tr]]; cbn in *.
    apply call_decode_ok in Hd as (gas & to & v & io & il & oo & ol & -> & ? & ? & ? & ? & ?).
    destruct scheme; cbn [app]; run_steps.
    all: rewrite bind_host; cbn; rewrite Hc; cbn; rewrite bind_push_ok by (cbn; lia);
      repeat split.
  - intros b s rest h1 ca h2 i Hd Hcap Hca Hc. unfold run_op, System.create.
    destruct s as [[[code data pos stk cap mem] st rdb ctx cfg] [h tr]]; cbn in *.
    apply create_decode_ok in Hd as (v & co & len & salt & -> & ? & ?).
    destruct b; cbn [app]; run_steps.
    all: rewrite bind_host; cbn; rewrite Hca; cbn; rewrite bind_host; cbn; rewrite Hc; cbn;
      rewrite bind_push_ok by (cbn; lia); repeat split.
Qed.

(** Once their operands decode and one word fits, the CALL family and
    CREATE/CREATE2 leave exactly one word on top of the remaining stack,
    whatever the host answers. *)
Theorem call_create_leave_one_word {H} `{HD : Host.Handler H} (keccak256 : list Z -> Z) :
  (forall scheme (s : @State H) rest,
     call_decode scheme s.(rt).(machine).(stack) = Ok rest ->
     Z.of_nat (length rest) + 1 <= s.(rt).(machine).(stack_cap) ->
     exists w, (fst (run_op (System.call scheme) s)).(rt).(machine).(stack) = w :: rest) /\
  (forall b (s : @State H) rest,
     create_decode b s.(rt).(machine).(stack) = Ok rest ->
     Z.of_nat (length rest) + 1 <= s.(rt).(machine).(stack_cap) ->
     exists w, (fst (run_op (System.create keccak256 b) s)).(rt).(machine).(stack) = w :: rest).
Proof.
  split.
  - intros scheme s rest Hd Hcap. rewrite run_op_fst. unfold System.call.
    destruct s as [[[code data pos stk cap mem] st rdb ctx cfg] [h tr]]; cbn in *.
    apply call_decode_ok in Hd as (gas & to & v & io & il & oo & ol & -> & ? & ? & ? & ? & ?).
    destruct scheme; cbn [app]; run_steps.
    all: rewrite bind_host; cbn.
    all: destruct (Host.call h _ _ _ _ _ _) as [h1 [[[r d]|i]|e]]; cbn.
    all: rewrite ?bind_put_return_data_buffer, ?bind_get_rt, ?bind_memory_set; cbn.
    all: try destruct (mem_set _ _ _ _) as [m'|e']; cbn.
    all: first [ rewrite bind_push_ok by (cbn; lia) | rewrite recover_step by (cbn; lia) ];
      cbn; eexists; reflexivity.
  - intros b s rest Hd Hcap. rewrite run_op_fst. unfold System.create.
    destruct s as [[[code data pos stk cap mem] st rdb ctx cfg] [h tr]]; cbn in *.
    apply create_decode_ok in Hd as (v & co & len & salt & -> & ? & ?).
    destruct b; cbn [app]; run_steps.
    all: rewrite bind_host; cbn.
    all: destruct (Host.create_address h _ _) as [h1 [ca|e]]; cbn;
      [rewrite bind_host; cbn; destruct (Host.create h1 _ _ _ _ _) as [h2 [[r|i]|e]]; cbn | ].
    all: first [ rewrite bind_push_ok by (cbn; lia) | rewrite recover_step by (cbn; lia) ];
      cbn; eexists; reflexivity.
Qed.

(** CREATE and CREATE2 call [create_address] (CREATE with the [Dynamic]
    scheme), then [create] with a transfer of the value to the new address,
    the init code read from memory, no gas limit and a context at the new
    address with the executing address as caller; no other host call is
    made. *)
Theorem create_host_arguments {H} `{HD : Host.Handler H} (keccak256 : list Z -> Z)
    (b : bool) (s : @State H) v code_offset len salt rest h1 create_address :
  s.(rt).(machine).(stack) = v :: code_offset :: len :: (if b then [salt] else []) ++ rest ->
  code_offset <= usize_max -> len <= usize_max ->
  (forall scheme, Host.create_address s.(world).(hstate) s.(rt).(context).(address) scheme
                  = (h1, Ok create_address)) ->
  let self := s.(rt).(context).(address) in
  exists scheme,
    (b = false -> scheme = Dynamic) /\
    (fst (run_op (System.create keccak256 b) s)).(world).(trace) =
    s.(world).(trace) ++
      [HCreateAddress self scheme;
       HCreate create_address (Some (mkTransfer self create_address v))
         (mem_get s.(rt).(machine).(memory) code_offset len) None
         (mkContext create_address self v)].
Proof.
  intros Hs Ho Hl Hca. rewrite run_op_fst. unfold System.create.
  destruct s as [[[code data pos stk cap mem] st rdb ctx cfg] [h tr]]; cbn in *. subst stk.
  destruct b; cbn [app]; run_steps.
  all: rewrite bind_host; cbn; rewrite Hca; cbn; rewrite bind_host; cbn.
  all: eexists; split; [intros Hb; first [discriminate Hb | reflexivity] | ].
  all: destruct (Host.create h1 _ _ _ _ _) as [h2 [[r|i]|e]]; cbn.
  all: unfold System.recover, push, bind; cbn; destruct (_ <? _); cbn; rewrite <- app_assoc; reflexivity.
Qed.

(** A successful SSTORE pops the index and the value, stores the value at
    the index of the executing address, and continues. *)
Theorem sstore_sets_storage {H} `{HD : Host.Handler H} (s : @State H) index v rest h1 u :
  s.(rt).(machine).(stack) = index :: v :: rest ->
  Host.set_storage s.(world).(hstate) s.(rt).(context).(address) index v = (h1, Ok u) ->
  run_op System.sstore s =
  (popped s rest (logged s h1 [HSetStorage s.(rt).(context).(address) index v]), Continue).
Proof.
  intros Hs He. unfold run_op, System.sstore.
  rewrite (bind_pop_cons _ _ _ _ Hs), (bind_pop_cons _ _ v rest) by reflexivity.
  rewrite bind_get_rt. cbv zeta. rewrite bind_host. cbn. rewrite He. reflexivity.
Qed.

(** A successful LOGn pops the offset, the length and [n] topics (the next
    [n] words, in stack order), logs the memory slice with these topics
    under the executing address, and continues. *)
Theorem log_appends_entry {H} `{HD : Host.Handler H} n (s : @State H) offset len rest h1 u :
  s.(rt).(machine).(stack) = offset :: len :: rest ->
  offset <= usize_max -> len <= usize_max -> (n <= length rest)%nat ->
  let a := s.(rt).(context).(address) in
  let d := mem_get s.(rt).(machine).(memory) offset len in
  Host.log s.(world).(hstate) a (firstn n rest) d = (h1, Ok u) ->
  run_op (System.log n) s =
  (popped s (skipn n rest) (logged s h1 [HLog a (firstn n rest) d]), Continue).
Proof.
  intros Hs Ho Hl Hn a d He. unfold run_op, System.log.
  rewrite (bind_pop_cons _ _ _ _ Hs), (bind_pop_cons _ _ len rest) by reflexivity.
  rewrite !bind_as_usize_ok by assumption.
  rewrite bind_get_rt. cbv zeta.
  rewrite bind_pop_topics by exact Hn.
  rewrite bind_host. cbn. subst a d. rewrite He. reflexivity.
Qed.



(** SUICIDE always ends the frame: it never continues nor traps. *)
Theorem suicide_always_exits {H} `{HD : Host.Handler H} (s : @State H) :
  exists r, snd (run_op System.suicide s) = CExit r.
Proof.
  unfold run_op, System.suicide.
  destruct s.(rt).(machine).(stack) as [|t r] eqn:Hs.
  - rewrite (bind_pop_nil _ _ Hs). eexists; reflexivity.
  - rewrite (bind_pop_cons _ _ t r Hs). rewrite bind_get_rt, bind_get_host. cbv beta zeta.
    rewrite bind_host. cbn.
    destruct (snd (Host.transfer _ _)) as [u|e]; cbn; [|eexists; reflexivity].
    rewrite bind_host. cbn.
    destruct (snd (Host.mark_delete _ _)) as [u'|e]; cbn; eexists; reflexivity.
Qed.

(** SHA3 replaces its two operands by the hash of the memory slice, leaving
    memory, return data and host alone; an offset or length above
    [usize::MAX] leaves with [NotSupported] after both pops. *)
Theorem sha3_hashes_memory {H} `{HD : Host.Handler H} (keccak256 : list Z -> Z) :
  (forall (s : @State H) from len rest,
     s.(rt).(machine).(stack) = from :: len :: rest ->
     from <= usize_max -> len <= usize_max ->
     Z.of_nat (length rest) + 1 <= s.(rt).(machine).(stack_cap) ->
     run_op (System.sha3 keccak256) s =
     (upd_machine (fun m => set_stack m
        (keccak256 (mem_get s.(rt).(machine).(memory) from len) :: rest)) s, Continue)) /\
  (forall (s : @State H) from len rest,
     s.(rt).(machine).(stack) = from :: len :: rest ->
     (usize_max < from \/ usize_max < len) ->
     run_op (System.sha3 keccak256) s =
     (upd_machine (fun m => set_stack m rest) s, CExit (Err NotSupported))).
Proof.
  split.
  - intros s from len rest Hs Hf Hl Hcap. unfold run_op, System.sha3.
    destruct s as [[[code data pos stk cap mem] st rdb ctx cfg] [h tr]]; cbn in *. subst stk.
    run_steps. rewrite bind_push_ok by (cbn; lia). reflexivity.
  - intros s from len rest Hs Hbig. unfold run_op, System.sha3.
    destruct s as [[[code data pos stk cap mem] st rdb ctx cfg] [h tr]]; cbn in *. subst stk.
    rewrite (bind_pop_cons _ _ from (len :: rest)) by reflexivity.
    rewrite (bind_pop_cons _ _ len rest) by reflexivity.
    destruct (Z.le_gt_cases from usize_max) as [Hf|Hf].
    + rewrite bind_as_usize_ok by exact Hf.
      rewrite bind_as_usize_big by (unfold usize_max in *; lia). reflexivity.
    + rewrite bind_as_usize_big by (unfold usize_max in *; lia). reflexivity.
Qed.

(** EXTCODECOPY pops four words, continues without a host call, and writes
    [len] bytes of the target's code from [code_offset] on, zero-filled past
    its end. *)
Theorem extcodecopy_zero_fills {H} `{HD : Host.Handler H} `{HE : HostEnv.Env H} (s : @State H)
    a memory_offset code_offset len rest :
  s.(rt).(machine).(stack) = a :: memory_offset :: code_offset :: len :: rest ->
  0 <= memory_offset -> 0 <= code_offset -> 0 <= len ->
  code_offset + len <= usize_max -> memory_offset + len <= usize_max ->
  memory_offset + len <= s.(rt).(machine).(memory).(mem_limit) ->
  let code := HostEnv.code s.(world).(hstate) (h160_of_h256 a) in
  let '(s', c) := run_op SystemEnv.extcodecopy s in
  c = Continue /\ s'.(world) = s.(world) /\ s'.(rt).(machine).(stack) = rest /\
  mem_get s'.(rt).(machine).(memory) memory_offset len =
    firstn (Z.to_nat len) (skipn (Z.to_nat code_offset) code ++ repeat 0 (Z.to_nat len)).
Proof.
  intros Hs Hmo Hco Hl Hcl Hml Hlim. cbv zeta.
  unfold run_op, SystemEnv.extcodecopy.
  rewrite (bind_pop_cons _ _ _ _ Hs).
  rewrite (bind_pop_cons _ _ memory_offset (code_offset :: len :: rest)) by reflexivity.
  rewrite (bind_pop_cons _ _ code_offset (len :: rest)) by reflexivity.
  rewrite (bind_pop_cons _ _ len rest) by reflexivity.
  rewrite bind_get_host.
  destruct (copy_large_get s.(rt).(machine).(memory) memory_offset code_offset len
              (HostEnv.code s.(world).(hstate) (h160_of_h256 a))) as [m' [Hc Hg]];
    [unfold usize_max in *; lia .. | exact Hlim |].
  unfold bind at 1, memory_copy_large. cbn [rt machine set_machine set_stack upd_machine
    memory world].
  rewrite Hc. cbn. repeat split; assumption.
Qed.

Lemma call_host_arguments_witness :
  (let s := call_frame (ok_script []) in
   let self := s.(rt).(context).(address) in
   exists later,
     (fst (run_op (System.call Call) s)).(world).(trace) =
     s.(world).(trace) ++
       HCall (h160_of_h256 99) (Some (mkTransfer self (h160_of_h256 99) 1))
         (mem_get s.(rt).(machine).(memory) 0 0)
         (Some (if 1 =? 0 then 0 else System.add_stipend 0 s.(rt).(config).(call_stipend)))
         false (mkContext (h160_of_h256 99) self 1) :: later) /\
  (let s := call_frame (ok_script []) in
   let self := s.(rt).(context).(address) in
   exists later,
     (fst (run_op (System.call CallCode) s)).(world).(trace) =
     s.(world).(trace) ++
       HCall (h160_of_h256 99) (Some (mkTransfer self self 1))
         (mem_get s.(rt).(machine).(memory) 0 0)
         (Some (if 1 =? 0 then 0 else System.add_stipend 0 s.(rt).(config).(call_stipend)))
         false (mkContext self self 1) :: later) /\
  (let s := frame [0; 99; 0; 0; 0; 0] [] [] (ok_script []) in
   let self := s.(rt).(context).(address) in
   exists later,
     (fst (run_op (System.call StaticCall) s)).(world).(trace) =
     s.(world).(trace) ++
       HCall (h160_of_h256 99) None (mem_get s.(rt).(machine).(memory) 0 0)
         (Some 0) true (mkContext (h160_of_h256 99) self 0) :: later).
Proof.
  assert (Hu : 0 <= usize_max) by (unfold usize_max; lia).
  assert (H8 : 8 <= usize_max) by (unfold usize_max; lia).
  destruct (@call_host_arguments Script script_handler) as (Pcall & Pcode & Pstatic).
  split; [exact (Pcall (call_frame (ok_script [])) 0 99 1 0 0 0 8 [] eq_refl Hu Hu Hu Hu H8)|].
  split; [exact (Pcode (call_frame (ok_script [])) 0 99 1 0 0 0 8 [] eq_refl Hu Hu Hu Hu H8)|].
  exact (Pstatic (frame [0; 99; 0; 0; 0; 0] [] [] (ok_script [])) 0 99 0 0 0 0 [] eq_refl
           Hu Hu Hu Hu Hu).
Defined.

Lemma call_exit_sets_return_data_witness :
  let s' := fst (run_op (System.call Call) (call_frame (ok_script [1; 2; 3; 4]))) in
  s'.(rt).(return_data_buffer) = [1; 2; 3; 4] /\
  (exists w, s'.(rt).(machine).(stack) = [w]) /\
  run_op System.returndatasize s' =
    (upd_machine (fun m => set_stack m (4 :: s'.(rt).(machine).(stack))) s', Continue).
Proof.
  exact (call_exit_sets_return_data Call (call_frame (ok_script [1; 2; 3; 4])) []
           (ok_script [1; 2; 3; 4]) (Ok Returned) [1; 2; 3; 4] eq_refl
           ltac:(vm_compute; discriminate) (fun _ _ _ _ _ _ => eq_refl)).
Defined.

Lemma call_create_trap_interrupts_witness :
  (let '(s', c) := run_op (System.call Call) (call_frame trap_script) in
   s'.(rt).(machine).(stack) = [0] /\ s'.(rt).(return_data_buffer) = [] /\
   c = CCallInterrupt tt) /\
  (let '(s', c) := run_op (System.create toy_digest false) (create_frame trap_script) in
   s'.(rt).(machine).(stack) = [0] /\ s'.(rt).(return_data_buffer) = [] /\
   c = CCreateInterrupt tt).
Proof.
  destruct (call_create_trap_interrupts toy_digest) as [Pcall Pcreate].
  split.
  - exact (Pcall Call (call_frame trap_script) [] trap_script tt eq_refl
             ltac:(vm_compute; discriminate) (fun _ _ _ _ _ _ => eq_refl)).
  - exact (Pcreate false (create_frame trap_script) [] trap_script 192 trap_script tt eq_refl
             ltac:(vm_compute; discriminate) (fun _ => eq_refl) (fun _ _ _ _ => eq_refl)).
Defined.

Lemma call_create_leave_one_word_witness :
  (exists w, (fst (run_op (System.call Call) (call_frame (fail_script true)))).(rt).(machine).(stack) = [w]) /\
  (exists w, (fst (run_op (System.create toy_digest false) (create_frame (ok_script [])))).(rt).(machine).(stack) = [w]).
Proof.
  destruct (call_create_leave_one_word toy_digest) as [Pcall Pcreate].
  split.
  - exact (Pcall Call (call_frame (fail_script true)) [] eq_refl ltac:(vm_compute; discriminate)).
  - exact (Pcreate false (create_frame (ok_script [])) [] eq_refl ltac:(vm_compute; discriminate)).
Defined.

Lemma create_host_arguments_witness :
  let s := create_frame (ok_script []) in
  let self := s.(rt).(context).(address) in
  exists scheme,
    (false = false -> scheme = Dynamic) /\
    (fst (run_op (System.create toy_digest false) s)).(world).(trace) =
    s.(world).(trace) ++
      [HCreateAddress self scheme;
       HCreate 192 (Some (mkTransfer self 192 0)) (mem_get s.(rt).(machine).(memory) 0 0) None
         (mkContext 192 self 0)].
Proof.
  assert (Hu : 0 <= usize_max) by (unfold usize_max; lia).
  exact (create_host_arguments toy_digest false (create_frame (ok_script [])) 0 0 0 0 []
           (ok_script []) 192 eq_refl Hu Hu (fun _ => eq_refl)).
Defined.

Lemma sstore_sets_storage_witness :
  let s := frame [1; 2] [] [] (ok_script []) in
  run_op System.sstore s = (popped s [] (logged s (ok_script []) [HSetStorage 10 1 2]), Continue).
Proof.
  exact (sstore_sets_storage (frame [1; 2] [] [] (ok_script [])) 1 2 [] (ok_script []) tt
           eq_refl eq_refl).
Defined.

Lemma log_appends_entry_witness :
  let s := frame [0; 0; 5] [] [] (ok_script []) in
  run_op (System.log 1) s =
  (popped s [] (logged s (ok_script []) [HLog 10 [5] (mem_get s.(rt).(machine).(memory) 0 0)]),
   Continue).
Proof.
  assert (Hu : 0 <= usize_max) by (unfold usize_max; lia).
  exact (log_appends_entry 1 (frame [0; 0; 5] [] [] (ok_script [])) 0 0 [5] (ok_script []) tt
           eq_refl Hu Hu (le_n 1) eq_refl).
Defined.


Lemma sha3_hashes_memory_witness :
  (let s := frame [0; 2] [1; 2; 3] [] (ok_script []) in
   run_op (System.sha3 toy_digest) s =
   (upd_machine (fun m => set_stack m (toy_digest (mem_get s.(rt).(machine).(memory) 0 2) :: [])) s,
    Continue)) /\
  (let s := frame [2 ^ 64; 0] [] [] (ok_script []) in
   run_op (System.sha3 toy_digest) s =
   (upd_machine (fun m => set_stack m []) s, CExit (Err NotSupported))).
Proof.
  assert (Hu : 0 <= usize_max) by (unfold usize_max; lia).
  assert (H2 : 2 <= usize_max) by (unfold usize_max; lia).
  destruct (@sha3_hashes_memory Script script_handler toy_digest) as [Pok Pbig].
  split.
  - exact (Pok (frame [0; 2] [1; 2; 3] [] (ok_script [])) 0 2 [] eq_refl Hu H2
             ltac:(vm_compute; discriminate)).
  - exact (Pbig (frame [2 ^ 64; 0] [] [] (ok_script [])) (2 ^ 64) 0 [] eq_refl
             ltac:(left; unfold usize_max; lia)).
Defined.

Lemma extcodecopy_zero_fills_witness :
  let s := frame [7; 0; 0; 4] [] [] (ok_script []) in
  let '(s', c) := run_op SystemEnv.extcodecopy s in
  c = Continue /\ s'.(world) = s.(world) /\ s'.(rt).(machine).(stack) = [] /\
  mem_get s'.(rt).(machine).(memory) 0 4 =
    firstn 4 (skipn 0 [96; 0; h160_of_h256 7] ++ repeat 0 4).
Proof.
  exact (extcodecopy_zero_fills (frame [7; 0; 0; 4] [] [] (ok_script [])) 7 0 0 4 [] eq_refl
           (Z.le_refl 0) (Z.le_refl 0) ltac:(lia) ltac:(unfold usize_max; lia)
           ltac:(unfold usize_max; lia) ltac:(cbn; unfold usize_max; lia)).
Defined.
